(** * Asset Audit Scanner: a shallow embedding of [asset-audit.js]

    The scanner walks a directory tree, keeps the files whose extension is in
    an allow-list, hashes the ones that are large enough, groups them by
    digest in a JavaScript [Map] and reports the buckets with more than one
    member, ranked by wasted bytes.

    Modelling choices.
    - JavaScript numbers that hold sizes and counters are integers of [Z];
      the loss of precision of doubles above 2^53 is outside the model.
    - The file system is the tree the walk sees: every directory entry
      carries what [readdirSync], [statSync] and [readFileSync] answer at
      its path; [None] stands for a call that throws.
    - [crypto.createHash('md5')] is a parameter [md5] of the development.
    - Exceptions are explicit: effectful functions return a [completion].
    - The [Map] [filesByHash] is an association list in insertion order,
      the order in which a JavaScript [Map] is iterated.
    - [console] and [process.stdout] are a list of output events, newest
      last; the text of [error.message] is not modelled. *)

From Stdlib Require Import List ZArith Lia Bool.
From Stdlib.Strings Require Import Ascii String Byte.
From Stdlib Require Import Sorted Permutation.
Import ListNotations.

Local Open Scope string_scope.
Local Open Scope list_scope.
Local Open Scope Z_scope.

(** ** Strings, as the JavaScript [String] methods the script calls *)

Module JsString.

(** [s.startsWith(p)] *)
Definition startsWith (s p : string) : bool := String.prefix p s.

(** [s.includes(t)] : [t] occurs in [s] as a substring. *)
Fixpoint includes (s t : string) : bool :=
  String.prefix t s ||
  match s with
  | EmptyString => false
  | String _ s' => includes s' t
  end.

(** [s.substring(n)] *)
Fixpoint substringFrom (n : nat) (s : string) : string :=
  match n, s with
  | O, _ => s
  | S _, EmptyString => EmptyString
  | S n', String _ s' => substringFrom n' s'
  end.

(** [s.slice(i, j)] for [0 <= i <= j]. *)
Definition slice (s : string) (i j : Z) : string :=
  String.substring (Z.to_nat i) (Z.to_nat (j - i)) s.

Definition lower_ascii (c : ascii) : ascii :=
  let n := N_of_ascii c in
  if (65 <=? n)%N && (n <=? 90)%N then ascii_of_N (n + 32) else c.

(** [s.toLowerCase()] on a string of ASCII characters, where the letters
    A to Z are the only ones it changes. On other characters
    [String.prototype.toLowerCase] follows Unicode and is not this map. *)
Fixpoint toLowerCase (s : string) : string :=
  match s with
  | EmptyString => EmptyString
  | String c s' => String (lower_ascii c) (toLowerCase s')
  end.

(** [s.split(sep)] for a one-character separator: never empty. *)
Fixpoint split (sep : ascii) (s : string) : list string :=
  match s with
  | EmptyString => [EmptyString]
  | String c s' =>
      if Ascii.eqb c sep then EmptyString :: split sep s'
      else match split sep s' with
           | p :: ps => String c p :: ps
           | [] => [String c EmptyString]
           end
  end.

(** A string is truthy when it is not empty. *)
Definition truthy (s : string) : bool := negb (String.eqb s "").

End JsString.

(** ** Numbers: [parseInt] and the [||] default *)

Module JsNumber.

(** The value of [options.minSize]: [NaN] or an integer. *)
Inductive num : Type :=
| NaN
| Num (z : Z).

(** [v || d] for [v] undefined ([None]) or a number. *)
Definition or_default (v : option num) (d : Z) : Z :=
  match v with
  | Some (Num z) => if z =? 0 then d else z
  | Some NaN | None => d
  end.

Definition falsy (v : option num) : bool :=
  match v with
  | Some (Num z) => z =? 0
  | Some NaN | None => true
  end.

Definition is_space (c : ascii) : bool :=
  let n := N_of_ascii c in
  ((9 <=? n)%N && (n <=? 13)%N) || (n =? 32)%N.

Fixpoint trimStart (s : string) : string :=
  match s with
  | String c s' => if is_space c then trimStart s' else s
  | EmptyString => EmptyString
  end.

Definition digit_value (radix : Z) (c : ascii) : option Z :=
  let n := Z.of_N (N_of_ascii c) in
  let v :=
    if (48 <=? n) && (n <=? 57) then Some (n - 48)
    else if (97 <=? n) && (n <=? 122) then Some (n - 87)
    else if (65 <=? n) && (n <=? 90) then Some (n - 55)
    else None in
  match v with
  | Some d => if d <? radix then Some d else None
  | None => None
  end.

(** The value of the longest prefix of digits; [None] when it is empty. *)
Fixpoint digits (radix : Z) (s : string) (acc : option Z) : option Z :=
  match s with
  | EmptyString => acc
  | String c s' =>
      match digit_value radix c with
      | Some d =>
          digits radix s'
            (Some (radix * match acc with Some a => a | None => 0 end + d))
      | None => acc
      end
  end.

(** [parseInt(v)] without a radix argument: [ToString], leading white
    space, an optional sign, an optional [0x] prefix, then digits; for an
    argument of ASCII characters and a value that a double holds exactly. *)
Definition parseInt (v : option string) : num :=
  let s := trimStart (match v with Some s => s | None => "undefined" end) in
  let '(sign, s) :=
    match s with
    | String "-" s' => (-1, s')
    | String "+" s' => (1, s')
    | _ => (1, s)
    end in
  let '(radix, s) :=
    match s with
    | String "0" (String "x" s') => (16, s')
    | String "0" (String "X" s') => (16, s')
    | _ => (10, s)
    end in
  match digits radix s None with
  | Some n => Num (sign * n)
  | None => NaN
  end.

End JsNumber.

(** ** Paths: the functions of Node's [path] module the script calls (POSIX) *)

Module Path.

Definition sep : string := "/".

Fixpoint endsWithSep (s : string) : bool :=
  match s with
  | EmptyString => false
  | String c EmptyString => Ascii.eqb c "/"
  | String _ s' => endsWithSep s'
  end.

(** [path.join(dir, name)] for a normalized [dir] and an entry name of a
    directory listing (not empty, without separator, neither [.] nor
    [..]). *)
Definition join (dir name : string) : string :=
  if endsWithSep dir then (dir ++ name)%string
  else (dir ++ sep ++ name)%string.

(** [path.relative(base, full)] for [full] at or below the normalized
    absolute directory [base], the only case the walk meets. *)
Definition relative (base full : string) : string :=
  if String.eqb base full then ""
  else if endsWithSep base then
    JsString.substringFrom (String.length base) full
  else JsString.substringFrom (S (String.length base)) full.

Record ext_scan : Type := mkExtScan {
  startDot : Z;
  startPart : Z;
  end_ : Z;
  matchedSlash : bool;
  preDotState : Z
}.

(** The loop of [path.posix.extname], from the last character to the
    first; [i] is the index of the head of [cs]. *)
Fixpoint extname_loop (cs : list ascii) (i : Z) (s : ext_scan) : ext_scan :=
  match cs with
  | [] => s
  | c :: cs' =>
      if Ascii.eqb c "/" then
        if negb (matchedSlash s) then
          mkExtScan (startDot s) (i + 1) (end_ s) (matchedSlash s)
                    (preDotState s)
        else extname_loop cs' (i - 1) s
      else
        let s1 :=
          if end_ s =? -1 then
            mkExtScan (startDot s) (startPart s) (i + 1) false (preDotState s)
          else s in
        let s2 :=
          if Ascii.eqb c "." then
            if startDot s1 =? -1 then
              mkExtScan i (startPart s1) (end_ s1) (matchedSlash s1)
                        (preDotState s1)
            else if negb (preDotState s1 =? 1) then
              mkExtScan (startDot s1) (startPart s1) (end_ s1)
                        (matchedSlash s1) 1
            else s1
          else if negb (startDot s1 =? -1) then
            mkExtScan (startDot s1) (startPart s1) (end_ s1)
                      (matchedSlash s1) (-1)
          else s1 in
        extname_loop cs' (i - 1) s2
  end.

(** [path.extname(p)] *)
Definition extname (p : string) : string :=
  let cs := rev (list_ascii_of_string p) in
  let s :=
    extname_loop cs (Z.of_nat (String.length p) - 1)
                 (mkExtScan (-1) 0 (-1) true 0) in
  if (startDot s =? -1) || (end_ s =? -1) || (preDotState s =? 0) ||
     ((preDotState s =? 1) && (startDot s =? end_ s - 1) &&
      (startDot s =? startPart s + 1))
  then ""
  else JsString.slice p (startDot s) (end_ s).

End Path.


(** ** The data model *)

(** A directory entry with what the file system answers at its path.
    [File]: [size] is [statSync(path).size] and [content] is
    [readFileSync(path)]; [Directory]: [listing] is [readdirSync(path)];
    [Other]: an entry for which both [isDirectory()] and [isFile()] are
    false (a symbolic link, a socket, ...). [None] is a call that throws. *)
Unset Elimination Schemes.
Inductive entry : Type :=
| File (name : string) (size : option Z) (content : option (list byte))
| Directory (name : string) (listing : option (list entry))
| Other (name : string).
Set Elimination Schemes.

Definition entry_name (e : entry) : string :=
  match e with
  | File n _ _ | Directory n _ | Other n => n
  end.

(** The object pushed on a bucket of [filesByHash]. *)
Record FileRecord : Type := mkFileRecord {
  path : string;
  relativePath : string;
  size : Z;
  extension : string
}.

(** [filesByHash]: digest to records, keys in insertion order. *)
Definition HashIndex : Type := list (string * list FileRecord).

(** [this.options] *)
Record Options : Type := mkOptions {
  minSize : Z;
  excludePatterns : list string;
  verbose : bool;
  json : bool;
  extensions : list string
}.

(** The argument of the constructor: every field may be undefined. *)
Record RawOptions : Type := mkRawOptions {
  raw_minSize : option JsNumber.num;
  raw_exclude : option (list string);
  raw_verbose : option bool;
  raw_json : option bool;
  raw_extensions : option (list string)
}.

(** What the script writes to the console. *)
Inductive output : Type :=
| LogScanning (directory : string)
| LogProcessed (processed : Z)
| OutProgress (processed total : Z)
| ErrReading (filePath : string)
| ErrScanning (dir : string).

(** An [AssetAudit] object, together with the console of the process. *)
Record AssetAudit : Type := mkAssetAudit {
  options : Options;
  filesByHash : HashIndex;
  processedFiles : Z;
  totalFiles : Z;
  console : list output
}.

Record DuplicateGroup : Type := mkDuplicateGroup {
  hash : string;
  count : Z;
  fileSize : Z;
  wastedBytes : Z;
  groupExtension : string;
  files : list string
}.

Record Stats : Type := mkStats {
  totalFilesScanned : Z;
  totalFilesProcessed : Z;
  uniqueFiles : Z;
  duplicateGroupCount : Z;
  totalDuplicates : Z;
  totalWastedBytes : Z
}.

Record ScanReport : Type := mkScanReport {
  stats : Stats;
  duplicateGroups : list DuplicateGroup
}.

(** How a call ends: with a value, or by throwing. *)
Inductive completion (A : Type) : Type :=
| Normal (a : A)
| Throw.
Arguments Normal {A} a.
Arguments Throw {A}.

(** ** The [Map] operations on [filesByHash] *)

Module JsMap.

Fixpoint has (m : HashIndex) (k : string) : bool :=
  match m with
  | [] => false
  | (k', _) :: m' => String.eqb k' k || has m' k
  end.

Fixpoint get (m : HashIndex) (k : string) : option (list FileRecord) :=
  match m with
  | [] => None
  | (k', v) :: m' => if String.eqb k' k then Some v else get m' k
  end.

(** [m.set(k, v)]: a present key keeps its place, a new one goes last. *)
Fixpoint set (m : HashIndex) (k : string) (v : list FileRecord) : HashIndex :=
  match m with
  | [] => [(k, v)]
  | (k', v') :: m' =>
      if String.eqb k' k then (k', v) :: m' else (k', v') :: set m' k v
  end.

(** [m.get(k).push(r)]: the array held under [k] grows in place. *)
Definition push (m : HashIndex) (k : string) (r : FileRecord) : HashIndex :=
  match get m k with
  | Some v => set m k (v ++ [r])
  | None => m
  end.

End JsMap.

(** ** The constructor and the command line *)

Definition default_excludes : list string :=
  ["node_modules"; ".git"; "dist"; "build"; ".next"; "coverage"].

Definition default_extensions : list string :=
  [".png"; ".jpg"; ".jpeg"; ".gif"; ".svg"; ".webp"; ".ico"; ".avif";
   ".woff"; ".woff2"; ".ttf"; ".eot"; ".otf";
   ".mp4"; ".webm"; ".mp3"; ".wav";
   ".pdf"].

Definition bool_or_false (v : option bool) : bool :=
  match v with Some b => b | None => false end.

(** [options.x || d] for an array: an array is truthy even when empty. *)
Definition list_or_default {A : Type} (v : option (list A)) (d : list A) :=
  match v with Some l => l | None => d end.

(** [new AssetAudit(options)], in a process whose console shows [out]. *)
Definition new_AssetAudit (o : RawOptions) (out : list output) : AssetAudit :=
  {| options :=
       {| minSize := JsNumber.or_default (raw_minSize o) 100;
          excludePatterns := list_or_default (raw_exclude o) default_excludes;
          verbose := bool_or_false (raw_verbose o);
          json := bool_or_false (raw_json o);
          extensions := list_or_default (raw_extensions o) default_extensions |};
     filesByHash := [];
     processedFiles := 0;
     totalFiles := 0;
     console := out |}.

Definition no_options : RawOptions := mkRawOptions None None None None None.

(** The body of [args.forEach] in [main]. An [--exclude] without [=value]
    pushes [undefined], which [includes] and [+] later turn into the string
    ["undefined"]; the conversion is done here. *)
Definition arg_parts (arg : string) : list string :=
  JsString.split "=" (JsString.substringFrom 2 arg).

(** The key and the value of an argument that starts with [--]. *)
Definition arg_key (arg : string) : option string :=
  if JsString.startsWith arg "--" then Some (hd "" (arg_parts arg)) else None.

Definition arg_value (arg : string) : option string :=
  nth_error (arg_parts arg) 1.

Definition parse_arg (o : RawOptions) (arg : string) : RawOptions :=
  if JsString.startsWith arg "--" then
    let parts := arg_parts arg in
    let key := hd "" parts in
    let value := nth_error parts 1 in
    if String.eqb key "min-size" then
      mkRawOptions
        (Some (JsNumber.Num
                 (JsNumber.or_default (Some (JsNumber.parseInt value)) 100)))
        (raw_exclude o) (raw_verbose o) (raw_json o) (raw_extensions o)
    else if String.eqb key "exclude" then
      mkRawOptions (raw_minSize o)
        (Some (list_or_default (raw_exclude o) [] ++
               [match value with Some v => v | None => "undefined" end]))
        (raw_verbose o) (raw_json o) (raw_extensions o)
    else if String.eqb key "json" then
      mkRawOptions (raw_minSize o) (raw_exclude o) (raw_verbose o) (Some true)
                   (raw_extensions o)
    else if String.eqb key "verbose" then
      mkRawOptions (raw_minSize o) (raw_exclude o) (Some true) (raw_json o)
                   (raw_extensions o)
    else o
  else o.

(** The options [main] hands to the constructor for [process.argv.slice(2)]. *)
Definition main_options (args : list string) : RawOptions :=
  let o := fold_left parse_arg args no_options in
  match raw_exclude o with
  | Some _ => o
  | None =>
      mkRawOptions (raw_minSize o) (Some default_excludes) (raw_verbose o)
                   (raw_json o) (raw_extensions o)
  end.

(** The directory [main] scans, before [path.resolve]; [None] when [main]
    prints the usage and exits. *)
Definition main_directory (args : list string) : option string :=
  match args with
  | [] => None
  | a :: _ =>
      if String.eqb a "--help" || String.eqb a "-h" then None
      else if JsString.startsWith a "--" then Some "." else Some a
  end.

(** ** The methods of [AssetAudit] *)

Definition log (this : AssetAudit) (o : output) : AssetAudit :=
  mkAssetAudit (options this) (filesByHash this) (processedFiles this)
               (totalFiles this) (console this ++ [o]).

Definition log_if (b : bool) (this : AssetAudit) (o : output) : AssetAudit :=
  if b then log this o else this.

Definition set_filesByHash (this : AssetAudit) (m : HashIndex) : AssetAudit :=
  mkAssetAudit (options this) m (processedFiles this) (totalFiles this)
               (console this).

Definition incr_processedFiles (this : AssetAudit) : AssetAudit :=
  mkAssetAudit (options this) (filesByHash this) (processedFiles this + 1)
               (totalFiles this) (console this).

Definition incr_totalFiles (this : AssetAudit) : AssetAudit :=
  mkAssetAudit (options this) (filesByHash this) (processedFiles this)
               (totalFiles this + 1) (console this).

(** The progress line of [processFile], every hundredth file when verbose. *)
Definition report_progress (this : AssetAudit) : AssetAudit :=
  log_if (verbose (options this) && (processedFiles this mod 100 =? 0))
         this (OutProgress (processedFiles this) (totalFiles this)).

(** [shouldExclude(filePath)] *)
Definition shouldExclude (o : Options) (filePath : string) : bool :=
  existsb
    (fun pattern =>
       JsString.includes filePath pattern ||
       JsString.includes filePath (Path.sep ++ pattern ++ Path.sep)%string)
    (excludePatterns o).

(** [hasValidExtension(filePath)] *)
Definition hasValidExtension (o : Options) (filePath : string) : bool :=
  let ext := JsString.toLowerCase (Path.extname filePath) in
  existsb (String.eqb ext) (extensions o).

Section Scanner.

(** [crypto.createHash('md5').update(content).digest('hex')] *)
Variable md5 : list byte -> string.

(** [getFileHash(filePath)]; [read] is what [readFileSync(filePath)]
    answers. The [catch] turns a failed read into [null]. *)
Definition getFileHash (this : AssetAudit) (filePath : string)
    (read : option (list byte)) : AssetAudit * completion (option string) :=
  match read with
  | Some content => (this, Normal (Some (md5 content)))
  | None =>
      (log_if (verbose (options this)) this (ErrReading filePath),
       Normal None)
  end.

(** [processFile(fullPath, relativePath, stats)] *)
Definition processFile (this : AssetAudit) (fullPath relativePath : string)
    (stats_size : Z) (read : option (list byte))
    : AssetAudit * completion unit :=
  let this := report_progress (incr_processedFiles this) in
  match getFileHash this fullPath read with
  | (this, Throw) => (this, Throw)
  | (this, Normal None) => (this, Normal tt)
  | (this, Normal (Some hash)) =>
      if JsString.truthy hash then
        let m := filesByHash this in
        let m := if negb (JsMap.has m hash) then JsMap.set m hash [] else m in
        (set_filesByHash this
           (JsMap.push m hash
              {| path := fullPath;
                 relativePath := relativePath;
                 size := stats_size;
                 extension := JsString.toLowerCase (Path.extname fullPath) |}),
         Normal tt)
      else (this, Normal tt)
  end.

(** [if (!baseDir) baseDir = dir] *)
Definition base_or (baseDir : option string) (dir : string) : string :=
  match baseDir with
  | Some b => if JsString.truthy b then b else dir
  | None => dir
  end.

(** [scanDirectory] and the body of its [for] loop call each other; the
    loop body [visit] is the function that recurses on the tree. *)
Section Directory.

Variable visit :
  entry -> AssetAudit -> string -> string -> AssetAudit * completion unit.

(** The [for] loop over the entries still to visit: an iteration that
    throws leaves the loop. *)
Fixpoint scanEntries (dir baseDir : string) (entries : list entry)
    (this : AssetAudit) {struct entries} : AssetAudit * completion unit :=
  match entries with
  | [] => (this, Normal tt)
  | e :: rest =>
      match visit e this dir baseDir with
      | (this, Normal _) => scanEntries dir baseDir rest this
      | (this, Throw) => (this, Throw)
      end
  end.

(** The body of [scanDirectory(dir, baseDir)]; [listing] is what
    [readdirSync(dir)] answers. Whatever is thrown inside the [try] is
    caught here. *)
Definition scanDirectory_body (this : AssetAudit) (dir : string)
    (baseDir : option string) (listing : option (list entry))
    : AssetAudit * completion unit :=
  let baseDir := base_or baseDir dir in
  let r :=
    match listing with
    | None => (this, Throw)
    | Some entries => scanEntries dir baseDir entries this
    end in
  match r with
  | (this, Normal _) => (this, Normal tt)
  | (this, Throw) =>
      (log_if (verbose (options this)) this (ErrScanning dir), Normal tt)
  end.

End Directory.

(** One iteration of the [for] loop of [scanDirectory(dir, baseDir)] on
    the entry [e]; [(this, Normal tt)] goes on with the next entry. *)
Fixpoint visit (e : entry) (this : AssetAudit) (dir baseDir : string)
    {struct e} : AssetAudit * completion unit :=
  let fullPath := Path.join dir (entry_name e) in
  let relativePath := Path.relative baseDir fullPath in
  if shouldExclude (options this) relativePath then (this, Normal tt)
  else
    match e with
    | Directory _ listing =>
        scanDirectory_body visit this fullPath (Some baseDir) listing
    | File name stat read =>
        if hasValidExtension (options this) name then
          let this := incr_totalFiles this in
          match stat with
          | None => (this, Throw)
          | Some sz =>
              if sz >=? minSize (options this) then
                processFile this fullPath relativePath sz read
              else (this, Normal tt)
          end
        else (this, Normal tt)
    | Other _ => (this, Normal tt)
    end.

(** [scanDirectory(dir, baseDir)] *)
Definition scanDirectory : AssetAudit -> string -> option string ->
    option (list entry) -> AssetAudit * completion unit :=
  scanDirectory_body visit.

(** One iteration of the loop of [analyze] over [filesByHash.entries()]:
    the accumulator is [duplicateGroups] and [totalWastedBytes]. *)
Definition collect (acc : list DuplicateGroup * Z)
    (kv : string * list FileRecord) : list DuplicateGroup * Z :=
  let '(hash, files) := kv in
  let n := Z.of_nat (List.length files) in
  if n >? 1 then
    match files with
    | f0 :: _ =>
        let wastedBytes := size f0 * (n - 1) in
        (fst acc ++
           [{| hash := hash;
               count := n;
               fileSize := size f0;
               wastedBytes := wastedBytes;
               groupExtension := extension f0;
               files := map relativePath files |}],
         snd acc + wastedBytes)
    | [] => acc
    end
  else acc.

(** [Array.prototype.sort(cmp)]: the sort is stable, so for a consistent
    comparator its result is the one computed by insertion: an element
    moves to the right only past elements it compares greater than. *)
Section Sort.
Context {A : Type} (cmp : A -> A -> Z).

Fixpoint sort_insert (a : A) (l : list A) : list A :=
  match l with
  | [] => [a]
  | b :: l' => if cmp a b >? 0 then b :: sort_insert a l' else a :: l
  end.

Fixpoint Array_sort (l : list A) : list A :=
  match l with
  | [] => []
  | a :: l' => sort_insert a (Array_sort l')
  end.
End Sort.

(** [(a, b) => b.wastedBytes - a.wastedBytes] *)
Definition by_wasted (a b : DuplicateGroup) : Z :=
  wastedBytes b - wastedBytes a.

(** [analyze(directory)]; [listing] is the content of [directory]. *)
Definition analyze (this : AssetAudit) (directory : string)
    (listing : option (list entry)) : AssetAudit * completion ScanReport :=
  let this := log this (LogScanning directory) in
  match scanDirectory this directory None listing with
  | (this, Throw) => (this, Throw)
  | (this, Normal _) =>
      let this :=
        log_if (verbose (options this)) this
               (LogProcessed (processedFiles this)) in
      let '(groups, total) := fold_left collect (filesByHash this) ([], 0) in
      let groups := Array_sort by_wasted groups in
      (this,
       Normal
         {| stats :=
              {| totalFilesScanned := totalFiles this;
                 totalFilesProcessed := processedFiles this;
                 uniqueFiles := Z.of_nat (List.length (filesByHash this));
                 duplicateGroupCount := Z.of_nat (List.length groups);
                 totalDuplicates :=
                   fold_left (fun acc g => acc + count g - 1) groups 0;
                 totalWastedBytes := total |};
            duplicateGroups := groups |})
  end.

(** What [main] runs: [new AssetAudit(options).analyze(directory)]. *)
Definition scan (o : RawOptions) (directory : string)
    (listing : option (list entry)) (out : list output)
    : AssetAudit * completion ScanReport :=
  analyze (new_AssetAudit o out) directory listing.

(** ** The walk as a sequence of events

    The same traversal, written without the scanner: the files on which the
    loop reaches [this.totalFiles++], and the directories whose [catch]
    block runs, in the order in which the scan meets them. The theorems
    below prove that the scanner is the fold of [apply_event] over it. *)

Inductive event : Type :=
| Seen (fullPath relativePath : string) (stat : option Z)
       (read : option (list byte))
| Caught (dir : string).

Section Walk.

Variable o : Options.

Section WalkDirectory.

Variable walk : entry -> string -> string -> list event * bool.

(** The events of the loop over [entries], and whether it was left by an
    exception. *)
Fixpoint walkEntries (dir baseDir : string) (entries : list entry)
    {struct entries} : list event * bool :=
  match entries with
  | [] => ([], false)
  | e :: rest =>
      let '(evs, thrown) := walk e dir baseDir in
      if thrown then (evs, true)
      else
        let '(evs', thrown') := walkEntries dir baseDir rest in
        (evs ++ evs', thrown')
  end.

Definition walkDirectory_body (dir : string) (baseDir : option string)
    (listing : option (list entry)) : list event :=
  let baseDir := base_or baseDir dir in
  match listing with
  | None => [Caught dir]
  | Some entries =>
      let '(evs, thrown) := walkEntries dir baseDir entries in
      if thrown then evs ++ [Caught dir] else evs
  end.

End WalkDirectory.

Fixpoint walk (e : entry) (dir baseDir : string) {struct e}
    : list event * bool :=
  let fullPath := Path.join dir (entry_name e) in
  let relativePath := Path.relative baseDir fullPath in
  if shouldExclude o relativePath then ([], false)
  else
    match e with
    | Directory _ listing =>
        (walkDirectory_body walk fullPath (Some baseDir) listing, false)
    | File name stat read =>
        if hasValidExtension o name then
          ([Seen fullPath relativePath stat read],
           match stat with None => true | Some _ => false end)
        else ([], false)
    | Other _ => ([], false)
    end.

Definition walkDirectory : string -> option string -> option (list entry) ->
    list event :=
  walkDirectory_body walk.

(** The tree without the entries [shouldExclude] rejects. *)
Fixpoint prune (dir baseDir : string) (e : entry) {struct e} : list entry :=
  let fullPath := Path.join dir (entry_name e) in
  let relativePath := Path.relative baseDir fullPath in
  if shouldExclude o relativePath then []
  else
    match e with
    | Directory name (Some entries) =>
        [Directory name
           (Some (flat_map (prune fullPath (base_or (Some baseDir) fullPath))
                           entries))]
    | _ => [e]
    end.

Definition prune_listing (dir : string) (baseDir : option string)
    (listing : option (list entry)) : option (list entry) :=
  match listing with
  | Some entries => Some (flat_map (prune dir (base_or baseDir dir)) entries)
  | None => None
  end.

(** [processFile] is called on the file of this event. *)
Definition attempted (ev : event) : bool :=
  match ev with
  | Seen _ _ (Some sz) _ => sz >=? minSize o
  | _ => false
  end.

(** The file of this event is large enough and could not be read. *)
Definition unreadable (ev : event) : bool :=
  match ev with
  | Seen _ _ (Some sz) None => sz >=? minSize o
  | _ => false
  end.

(** The digest and the record the file of this event adds to
    [filesByHash], if any. *)
Definition insert_of (ev : event) : option (string * FileRecord) :=
  match ev with
  | Seen fullPath relativePath (Some sz) (Some content) =>
      if (sz >=? minSize o) && JsString.truthy (md5 content) then
        Some (md5 content,
              {| path := fullPath;
                 relativePath := relativePath;
                 size := sz;
                 extension := JsString.toLowerCase (Path.extname fullPath) |})
      else None
  | _ => None
  end.

Fixpoint inserts (evs : list event) : list (string * FileRecord) :=
  match evs with
  | [] => []
  | ev :: evs' =>
      match insert_of ev with
      | Some i => i :: inserts evs'
      | None => inserts evs'
      end
  end.

Definition is_seen (ev : event) : bool :=
  match ev with Seen _ _ _ _ => true | Caught _ => false end.

End Walk.

(** What one event does to the scanner. *)
Definition apply_event (this : AssetAudit) (ev : event) : AssetAudit :=
  match ev with
  | Seen fullPath relativePath stat read =>
      let this := incr_totalFiles this in
      match stat with
      | Some sz =>
          if sz >=? minSize (options this) then
            fst (processFile this fullPath relativePath sz read)
          else this
      | None => this
      end
  | Caught dir => log_if (verbose (options this)) this (ErrScanning dir)
  end.

(** What [processFile] does to [filesByHash] for a digest and a record. *)
Definition index_add (m : HashIndex) (i : string * FileRecord) : HashIndex :=
  JsMap.push (if negb (JsMap.has m (fst i)) then JsMap.set m (fst i) [] else m)
             (fst i) (snd i).

(** The digests of the files the scan has hashed, in the order of the walk. *)
Definition discovery (ops : Options) (dir : string)
    (listing : option (list entry)) : list string :=
  map fst (inserts ops (walkDirectory ops dir None listing)).

End Scanner.

(** ** Order in a list *)

(** Some occurrence of [x] in [l] is followed by an occurrence of [y]. *)
Fixpoint before {A : Type} (x y : A) (l : list A) : Prop :=
  match l with
  | [] => False
  | a :: l' => (a = x /\ In y l') \/ before x y l'
  end.

(** [x] and [y] both occur in [l], and the first occurrence of [x] comes
    before every occurrence of [y]. *)
Definition first_before {A : Type} (x y : A) (l : list A) : Prop :=
  x <> y /\
  exists l1 l2, l = l1 ++ x :: l2 /\ ~ In x l1 /\ ~ In y l1 /\ In y l2.

(** The records of a bucket, or nothing for a digest that is not a key. *)
Definition bucket (m : HashIndex) (h : string) : list FileRecord :=
  match JsMap.get m h with Some v => v | None => [] end.

(** The number of records [filesByHash] holds. *)
Definition record_count (m : HashIndex) : Z :=
  fold_right (fun kv n => Z.of_nat (List.length (snd kv)) + n) 0 m.

Definition sum_wasted (gs : list DuplicateGroup) : Z :=
  fold_right (fun g n => wastedBytes g + n) 0 gs.


Definition completion_of (thrown : bool) : completion unit :=
  if thrown then Throw else Normal tt.

(** One iteration of the loop on [e] is the fold of the events of [e]. *)
Definition visit_is_walk (md5 : list byte -> string) (e : entry) : Prop :=
  forall this dir baseDir,
    visit md5 e this dir baseDir =
    (fold_left (apply_event md5) (fst (walk (options this) e dir baseDir)) this,
     completion_of (snd (walk (options this) e dir baseDir))).

(** The keys of [filesByHash] after a file with digest [h] is added. *)
Fixpoint add_key (ks : list string) (h : string) : list string :=
  match ks with
  | [] => [h]
  | k :: ks' => if String.eqb k h then ks else k :: add_key ks' h
  end.

(** The group the loop of [analyze] makes of one bucket, if any. *)
Definition group_of (kv : string * list FileRecord) : list DuplicateGroup :=
  fst (collect ([], 0) kv).

(** [duplicateGroups] before it is sorted. *)
Definition groups_of (m : HashIndex) : list DuplicateGroup :=
  flat_map group_of m.

(** The order of the report: wasted bytes do not increase. *)
Definition wasted_ge (a b : DuplicateGroup) : Prop :=
  wastedBytes a >= wastedBytes b.

(** The options the constructor builds from the argument of [scan]. *)
Definition scan_options (o : RawOptions) : Options :=
  options (new_AssetAudit o []).

(** The events of a scan of [directory]. *)
Definition scan_events (o : RawOptions) (directory : string)
    (listing : option (list entry)) : list event :=
  walkDirectory (scan_options o) directory None listing.

(** The file of this event is smaller than [minSize]. *)
Definition below_minSize (ops : Options) (ev : event) : bool :=
  match ev with
  | Seen _ _ (Some sz) _ => sz <? minSize ops
  | _ => false
  end.

(** [statSync] threw on the file of this event. *)
Definition stat_failed (ev : event) : bool :=
  match ev with
  | Seen _ _ None _ => true
  | _ => false
  end.

(** The file at [relativePath] passed the filters of a scan with events
    [evs], was read as [content] and got a digest. *)
Definition hashed_file (md5 : list byte -> string) (ops : Options)
    (evs : list event) (relativePath : string) (content : list byte) : Prop :=
  exists fullPath sz,
    In (Seen fullPath relativePath (Some sz) (Some content)) evs /\
    sz >= minSize ops /\ md5 content <> "".

(** The events of the loop are the same when the excluded part of [e] is
    pruned. *)
Definition walk_ignores_excluded (ops : Options) (e : entry) : Prop :=
  forall dir baseDir rest,
    walkEntries (walk ops) dir baseDir (prune ops dir baseDir e ++ rest) =
    walkEntries (walk ops) dir baseDir (e :: rest).

(** ** [printResults] and [main] *)

(** One constructor for each [console.log] of [printResults], with the
    values its template interpolates; the banners and the fixed words of the
    lines are not modelled. [JsonDocument] is the line
    [JSON.stringify(results, null, 2)]. *)
Inductive line : Type :=
| JsonDocument (results : ScanReport)
| Rule
| ResultsTitle
| TotalScanned (n : Z)
| AssetsProcessed (n : Z)
| UniqueAssets (n : Z)
| DuplicateGroupsLine (n : Z)
| TotalDuplicatesLine (n : Z)
| WastedSpace (text : string)
| EmptyLine
| DuplicatesTitle
| GroupHeader (index : Z) (ext : string) (copies : Z) (wasted : string)
| FileLine (file : string)
| MoreGroups (n : Z)
| NoDuplicates
| ClosingRule.

(** What the process writes: the lines of the scan, the lines of
    [printResults], or the usage text. *)
Inductive written : Type :=
| Usage
| FromScan (o : output)
| FromPrint (l : line).

Section Printing.

(** [formatBytes(bytes)]: it computes with floating-point logarithms and
    [toFixed], and is a parameter here. *)
Variable formatBytes : Z -> string.

(** [results.duplicateGroups.slice(0, 20).forEach((group, index) => ...)],
    from the group of index [index] on. *)
Fixpoint printGroups (index : Z) (groups : list DuplicateGroup) : list line :=
  match groups with
  | [] => []
  | group :: rest =>
      GroupHeader (index + 1) (groupExtension group) (count group)
                  (formatBytes (wastedBytes group))
      :: map FileLine (files group) ++ printGroups (index + 1) rest
  end.

(** [printResults(results)] *)
Definition printResults (o : Options) (results : ScanReport) : list line :=
  if json o then [JsonDocument results]
  else
    [Rule; ResultsTitle; Rule;
     TotalScanned (totalFilesScanned (stats results));
     AssetsProcessed (totalFilesProcessed (stats results));
     UniqueAssets (uniqueFiles (stats results));
     DuplicateGroupsLine (duplicateGroupCount (stats results));
     TotalDuplicatesLine (totalDuplicates (stats results));
     WastedSpace (formatBytes (totalWastedBytes (stats results)));
     EmptyLine] ++
    (if Z.of_nat (List.length (duplicateGroups results)) >? 0 then
       [Rule; DuplicatesTitle; Rule] ++
       printGroups 0 (firstn 20 (duplicateGroups results)) ++
       (if Z.of_nat (List.length (duplicateGroups results)) >? 20 then
          [MoreGroups (Z.of_nat (List.length (duplicateGroups results)) - 20)]
        else [])
     else [NoDuplicates]) ++
    [ClosingRule].

(** [main()] for [process.argv.slice(2) = args]; [resolve] is
    [path.resolve] and [tree d] is what [readdirSync] answers in the tree
    at [d]. The process ends with status 0 in both branches. *)
Definition main (md5 : list byte -> string) (resolve : string -> string)
    (tree : string -> option (list entry)) (args : list string)
    : list written :=
  match main_directory args with
  | None => [Usage]
  | Some directory =>
      let scanner := new_AssetAudit (main_options args) [] in
      match analyze md5 scanner (resolve directory) (tree (resolve directory))
      with
      | (scanner, Normal results) =>
          map FromScan (console scanner) ++
          map FromPrint (printResults (options scanner) results)
      | (scanner, Throw) => map FromScan (console scanner)
      end
  end.

End Printing.

(** ** A sample run *)

(** A stand-in for the digest on sample runs: the content behind a letter,
    never empty and different for different contents. *)
Definition tag_digest (content : list byte) : string :=
  String "h"%char (string_of_list_byte content).

Definition bytes_A : list byte := repeat x41 120.
Definition bytes_C : list byte := repeat x43 120.
Definition bytes_D : list byte := repeat x44 300.

(** Two copies of one image, a third image, two small copies, a copy in a
    dependency directory, a directory that cannot be listed, a file that
    cannot be read, and two copies of a document further down. *)
Definition sample_listing : option (list entry) :=
  Some [File "a.png" (Some 120) (Some bytes_A);
        File "b.PNG" (Some 120) (Some bytes_A);
        File "c.png" (Some 120) (Some bytes_C);
        File "tiny.png" (Some 50) (Some (repeat x41 50));
        File "tiny2.png" (Some 50) (Some (repeat x41 50));
        File "notes.txt" (Some 120) (Some bytes_A);
        Directory "node_modules" (Some [File "dep.png" (Some 120) (Some bytes_A)]);
        Directory "locked" None;
        File "unread.png" (Some 500) None;
        Other "link.png";
        Directory "docs"
          (Some [File "d.pdf" (Some 300) (Some bytes_D);
                 Directory "old" (Some [File "e.pdf" (Some 300) (Some bytes_D)])])].

Definition sample_scan : AssetAudit * completion ScanReport :=
  scan tag_digest no_options "/r" sample_listing [].

Definition sample_report : ScanReport :=
  Eval vm_compute in
    match snd sample_scan with
    | Normal r => r
    | Throw => mkScanReport (mkStats 0 0 0 0 0 0) []
    end.

(** One small image alone in the root. *)
Definition tiny_listing : option (list entry) :=
  Some [File "tiny.png" (Some 50) (Some (repeat x41 50))].

(** One image alone in the root, which cannot be read. *)
Definition unread_listing : option (list entry) :=
  Some [File "unread.png" (Some 500) None].

(** [totalFilesProcessed] of the report a call returned. *)
Definition totalFilesProcessed_of (c : completion ScanReport) : option Z :=
  match c with
  | Normal r => Some (totalFilesProcessed (stats r))
  | Throw => None
  end.

(** ** Statements of the further properties *)

(** The string is made of ASCII characters. *)
Definition ascii_only (s : string) : bool :=
  forallb (fun c => (N_of_ascii c <? 128)%N) (list_ascii_of_string s).

(** The file of this event is not excluded, and its relative path is taken
    from [baseDir] when [baseDir] is not the empty string. *)
Definition seen_in_tree (ops : Options) (baseDir : string) (ev : event) : Prop :=
  match ev with
  | Seen fullPath relativePath _ _ =>
      shouldExclude ops relativePath = false /\
      (JsString.truthy baseDir = true ->
       relativePath = Path.relative baseDir fullPath)
  | Caught _ => True
  end.

(** The sum of [count - 1] over groups: [totalDuplicates]. *)
Definition sum_duplicates (gs : list DuplicateGroup) : Z :=
  fold_right (fun g n => count g - 1 + n) 0 gs.

(** The inserts with digest [h]. *)
Definition with_digest (h : string) (ins : list (string * FileRecord))
    : list (string * FileRecord) :=
  filter (fun i => String.eqb (fst i) h) ins.

(** The lines [console.error] writes. *)
Definition is_error_line (l : output) : bool :=
  match l with
  | ErrReading _ | ErrScanning _ => true
  | _ => false
  end.

(** The event of a failure the scan recovers from: a file that is large
    enough and cannot be read, or a [catch] of [scanDirectory]. *)
Definition failure (ops : Options) (ev : event) : bool :=
  match ev with
  | Seen _ _ _ _ => unreadable ops ev
  | Caught _ => true
  end.

(** The line a failure writes when [verbose] is set. *)
Definition error_line (ev : event) : output :=
  match ev with
  | Seen fullPath _ _ _ => ErrReading fullPath
  | Caught dir => ErrScanning dir
  end.

Definition zero_stats : Stats := mkStats 0 0 0 0 0 0.

(** The argument has the key [k]. *)
Definition has_key (k : string) (arg : string) : bool :=
  match arg_key arg with
  | Some k' => String.eqb k' k
  | None => false
  end.

(** The values of the arguments with the key [exclude], in their order; an
    argument without [=] gives ["undefined"]. *)
Definition exclude_values (args : list string) : list string :=
  flat_map
    (fun arg =>
       if has_key "exclude" arg then
         [match arg_value arg with Some v => v | None => "undefined" end]
       else [])
    args.

(** The numbers of the group headers among the lines, and the files. *)
Definition group_indices (lines : list line) : list Z :=
  flat_map (fun l => match l with GroupHeader i _ _ _ => [i] | _ => [] end)
           lines.

Definition file_lines (lines : list line) : list string :=
  flat_map (fun l => match l with FileLine f => [f] | _ => [] end) lines.

(** A name as a directory listing gives it: not empty, without
    separator. *)
Definition name_ok (name : string) : bool :=
  negb (String.eqb name "") &&
  forallb (fun c => negb (Ascii.eqb c "/")) (list_ascii_of_string name).

(** All the names of the tree below [e] are such names. *)
Fixpoint names_ok (e : entry) : bool :=
  name_ok (entry_name e) &&
  match e with
  | Directory _ (Some entries) => forallb names_ok entries
  | _ => true
  end.

Definition listing_names_ok (listing : option (list entry)) : bool :=
  match listing with
  | Some entries => forallb names_ok entries
  | None => true
  end.

(** The state of the loop of [extname] when the string gets [k] more
    characters in front: the indices it has set move by [k]. *)
Definition shift_scan (k : Z) (s : Path.ext_scan) : Path.ext_scan :=
  Path.mkExtScan
    (if Path.startDot s =? -1 then -1 else Path.startDot s + k)
    (Path.startPart s)
    (if Path.end_ s =? -1 then -1 else Path.end_ s + k)
    (Path.matchedSlash s)
    (Path.preDotState s).

(** The indices of the state are set or still -1, and [matchedSlash] is
    cleared once the end is set. *)
Definition scan_valid (s : Path.ext_scan) : Prop :=
  (Path.startDot s = -1 \/ 0 <= Path.startDot s) /\
  (Path.end_ s = -1 \/ 0 <= Path.end_ s) /\
  (Path.end_ s <> -1 -> Path.matchedSlash s = false).

(** The file of this event has a well-formed name with an allowed
    extension, and its full path has the extension of the name. *)
Definition seen_extension_ok (ops : Options) (ev : event) : Prop :=
  match ev with
  | Seen fullPath _ _ _ =>
      In (JsString.toLowerCase (Path.extname fullPath)) (extensions ops)
  | Caught _ => True
  end.

(** The characters of a name. *)
Definition no_slash (cs : list ascii) : Prop :=
  Forall (fun c => Ascii.eqb c "/" = false) cs.

(** What the loop of [extname] does to its state for a character at
    index [i] that is not a separator. *)
Definition ext_step (c : ascii) (i : Z) (s : Path.ext_scan) : Path.ext_scan :=
  let s1 :=
    if Path.end_ s =? -1 then
      Path.mkExtScan (Path.startDot s) (Path.startPart s) (i + 1) false
                     (Path.preDotState s)
    else s in
  if Ascii.eqb c "." then
    if Path.startDot s1 =? -1 then
      Path.mkExtScan i (Path.startPart s1) (Path.end_ s1)
                     (Path.matchedSlash s1) (Path.preDotState s1)
    else if negb (Path.preDotState s1 =? 1) then
      Path.mkExtScan (Path.startDot s1) (Path.startPart s1) (Path.end_ s1)
                     (Path.matchedSlash s1) 1
    else s1
  else if negb (Path.startDot s1 =? -1) then
    Path.mkExtScan (Path.startDot s1) (Path.startPart s1) (Path.end_ s1)
                   (Path.matchedSlash s1) (-1)
  else s1.

(** The lines [process.stdout.write] writes. *)
Definition is_progress_line (l : output) : bool :=
  match l with
  | OutProgress _ _ => true
  | _ => false
  end.

(** ** More sample runs *)

(** A stand-in for [formatBytes] on sample runs. *)
Definition plain_bytes (bytes : Z) : string := "bytes".

Definition verbose_options : RawOptions :=
  mkRawOptions None None (Some true) None None.

Definition larger_options : RawOptions :=
  mkRawOptions (Some (JsNumber.Num 200)) None None None None.

Definition verbose_scan : AssetAudit * completion ScanReport :=
  scan tag_digest verbose_options "/r" sample_listing [].

Definition larger_scan : AssetAudit * completion ScanReport :=
  scan tag_digest larger_options "/r" sample_listing [].

Definition report_of (c : completion ScanReport) : ScanReport :=
  match c with
  | Normal r => r
  | Throw => mkScanReport zero_stats []
  end.

Definition verbose_report : ScanReport :=
  Eval vm_compute in report_of (snd verbose_scan).

Definition larger_report : ScanReport :=
  Eval vm_compute in report_of (snd larger_scan).

(** [analyze] called again on the object of the sample run. *)
Definition second_analyze : AssetAudit * completion ScanReport :=
  analyze tag_digest (fst sample_scan) "/r" sample_listing.

Definition second_report : ScanReport :=
  Eval vm_compute in report_of (snd second_analyze).

(** A directory where [statSync] throws on the second file. *)
Definition stat_listing (rest : list entry) : option (list entry) :=
  Some ([File "a.png" (Some 120) (Some bytes_A)] ++
        File "gone.png" None None :: rest).

(** The first group of the sample report. *)
Definition first_group : DuplicateGroup :=
  nth 0 (duplicateGroups sample_report) (mkDuplicateGroup "" 0 0 0 "" []).

(** * Verification *)

(** Steps of the proofs on sample runs. *)
Ltac evaluated := vm_compute; reflexivity.

Ltac distinct_strings :=
  vm_compute;
  repeat (constructor; [simpl; intuition discriminate|]);
  constructor.

Ltac sample_file fullPath sz :=
  exists fullPath, sz;
  split; [vm_compute; tauto | split; [vm_compute; discriminate | discriminate]].

(** Case analysis on the tests of the loop of [extname]. *)
Ltac scan_cases :=
  repeat
    (cbn [Path.startDot Path.end_ Path.matchedSlash Path.startPart
          Path.preDotState negb] in *;
     match goal with
     | |- context [Z.eqb ?a ?b] =>
         destruct (Z.eqb_spec a b);
         cbn [Path.startDot Path.end_ Path.matchedSlash Path.startPart
              Path.preDotState negb] in *;
         try lia
     | |- context [Ascii.eqb ?a ?b] => destruct (Ascii.eqb a b)
     end);
  cbn [Path.startDot Path.end_ Path.matchedSlash Path.startPart
       Path.preDotState negb] in *.

(** ** The library functions on the examples of their documentation *)

Section Library.

Example extname_examples :
  Path.extname "index.html" = ".html" /\
  Path.extname "index.coffee.md" = ".md" /\
  Path.extname "index." = "." /\
  Path.extname "index" = "" /\
  Path.extname ".index" = "" /\
  Path.extname ".index.md" = ".md" /\
  Path.extname "/r/shots/Photo.PNG" = ".PNG" /\
  Path.extname "/r/v1.2/readme" = "".
Proof. repeat split; reflexivity. Qed.

Example path_examples :
  Path.join "/r" "a.png" = "/r/a.png" /\
  Path.join "/" "a.png" = "/a.png" /\
  Path.relative "/r" "/r/docs/old/e.pdf" = "docs/old/e.pdf" /\
  Path.relative "/" "/a.png" = "a.png".
Proof. repeat split; reflexivity. Qed.

Example parseInt_examples :
  JsNumber.parseInt (Some "1000") = JsNumber.Num 1000 /\
  JsNumber.parseInt (Some "  42px") = JsNumber.Num 42 /\
  JsNumber.parseInt (Some "-7") = JsNumber.Num (-7) /\
  JsNumber.parseInt (Some "0x1f") = JsNumber.Num 31 /\
  JsNumber.parseInt (Some "0.5") = JsNumber.Num 0 /\
  JsNumber.parseInt (Some "abc") = JsNumber.NaN /\
  JsNumber.parseInt (Some "") = JsNumber.NaN /\
  JsNumber.parseInt None = JsNumber.NaN.
Proof. repeat split; reflexivity. Qed.

Example split_examples :
  JsString.split "=" "min-size=1000" = ["min-size"; "1000"] /\
  JsString.split "=" "json" = ["json"] /\
  JsString.split "=" "exclude=a=b" = ["exclude"; "a"; "b"] /\
  JsString.split "=" "exclude=" = ["exclude"; ""].
Proof. repeat split; reflexivity. Qed.

Lemma prefix_append p s : String.prefix p (p ++ s) = true.
Proof.
  induction p as [|c p IH]; simpl.
  - now destruct s.
  - destruct (ascii_dec c c) as [_|Hc]; [exact IH|now contradiction Hc].
Qed.

Lemma prefix_split p s :
  String.prefix p s = true -> exists b, s = (p ++ b)%string.
Proof.
  revert s. induction p as [|c p IH]; intros s; simpl.
  - intros _. now exists s.
  - destruct s as [|c' s]; simpl; [discriminate|].
    destruct (ascii_dec c c') as [<-|_]; [|discriminate].
    intros H. destruct (IH s H) as (b & ->). now exists b.
Qed.

Lemma includes_prefix s t :
  String.prefix t s = true -> JsString.includes s t = true.
Proof.
  intros Ht. destruct s; cbn [JsString.includes]; now rewrite Ht.
Qed.

(** [includes] is the test of being a substring. *)
Lemma includes_substring a p b :
  JsString.includes (a ++ p ++ b) p = true.
Proof.
  induction a as [|c a IH].
  - change ("" ++ p ++ b)%string with (p ++ b)%string.
    apply includes_prefix. apply prefix_append.
  - simpl. rewrite IH. apply orb_true_r.
Qed.

Lemma includes_split s t :
  JsString.includes s t = true -> exists a b, s = (a ++ t ++ b)%string.
Proof.
  induction s as [|c s IH]; cbn [JsString.includes]; intros H;
    apply orb_true_iff in H; destruct H as [H|H]; try discriminate.
  - destruct (prefix_split _ _ H) as (b & ->). now exists "", b.
  - destruct (prefix_split _ _ H) as (b & ->). now exists "", b.
  - destruct (IH H) as (a & b & ->). now exists (String c a), b.
Qed.

End Library.

(** ** Induction on the directory tree *)

Section EntryInduction.

Variable P : entry -> Prop.
Hypothesis P_File : forall n s c, P (File n s c).
Hypothesis P_Other : forall n, P (Other n).
Hypothesis P_Directory :
  forall n l, (forall es, l = Some es -> Forall P es) -> P (Directory n l).

Fixpoint entry_ind (e : entry) : P e :=
  match e with
  | File n s c => P_File n s c
  | Other n => P_Other n
  | Directory n l =>
      P_Directory n l
        (fun es =>
           match l as l0 return l0 = Some es -> Forall P es with
           | None => fun H => match H with eq_refl => I end
           | Some es0 =>
               fun H =>
                 match H in _ = s
                       return match s with
                              | Some es' => Forall P es'
                              | None => True
                              end
                 with
                 | eq_refl =>
                     (fix all (l1 : list entry) : Forall P l1 :=
                        match l1 with
                        | [] => Forall_nil P
                        | x :: l2 => Forall_cons x (entry_ind x) (all l2)
                        end) es0
                 end
           end)
  end.

End EntryInduction.

(** ** The scanner is the fold of the events of the walk *)

Section ScanIsWalk.

Variable md5 : list byte -> string.

Lemma processFile_normal this fullPath relativePath sz read :
  snd (processFile md5 this fullPath relativePath sz read) = Normal tt.
Proof.
  unfold processFile, report_progress, getFileHash.
  destruct read as [content|]; simpl; [|reflexivity].
  destruct (JsString.truthy (md5 content)); reflexivity.
Qed.

Lemma processFile_options this fullPath relativePath sz read :
  options (fst (processFile md5 this fullPath relativePath sz read)) =
  options this.
Proof.
  unfold processFile, report_progress, getFileHash, log_if.
  destruct read as [content|]; simpl.
  - destruct (JsString.truthy (md5 content)); simpl;
      destruct (verbose (options this) && _); reflexivity.
  - destruct (verbose (options this) && _); simpl;
      destruct (verbose (options this)); reflexivity.
Qed.

Lemma apply_event_options this ev :
  options (apply_event md5 this ev) = options this.
Proof.
  destruct ev as [fullPath relativePath [sz|] read | dir]; simpl.
  - destruct (sz >=? minSize (options this)); [|reflexivity].
    now rewrite processFile_options.
  - reflexivity.
  - unfold log_if. now destruct (verbose (options this)).
Qed.

Lemma fold_apply_options evs : forall this,
  options (fold_left (apply_event md5) evs this) = options this.
Proof.
  induction evs as [|ev evs IH]; intros this; simpl; [reflexivity|].
  now rewrite IH, apply_event_options.
Qed.

Lemma scanEntries_is_walk entries :
  Forall (visit_is_walk md5) entries ->
  forall this dir baseDir,
    scanEntries (visit md5) dir baseDir entries this =
    (fold_left (apply_event md5)
       (fst (walkEntries (walk (options this)) dir baseDir entries)) this,
     completion_of
       (snd (walkEntries (walk (options this)) dir baseDir entries))).
Proof.
  induction 1 as [|e rest He _ IH]; intros this dir baseDir; simpl.
  - reflexivity.
  - rewrite (He this dir baseDir).
    destruct (walk (options this) e dir baseDir) as [evs thrown]; simpl.
    destruct thrown; simpl; [reflexivity|].
    rewrite IH, fold_apply_options.
    destruct (walkEntries (walk (options this)) dir baseDir rest)
      as [evs' thrown']; simpl.
    now rewrite fold_left_app.
Qed.

Lemma scanDirectory_body_is_walk listing :
  (forall es, listing = Some es -> Forall (visit_is_walk md5) es) ->
  forall this dir baseDir,
    scanDirectory_body (visit md5) this dir baseDir listing =
    (fold_left (apply_event md5)
       (walkDirectory_body (walk (options this)) dir baseDir listing) this,
     Normal tt).
Proof.
  intros Hall this dir baseDir.
  unfold scanDirectory_body, walkDirectory_body.
  destruct listing as [entries|]; [|reflexivity].
  rewrite (scanEntries_is_walk entries (Hall entries eq_refl)).
  destruct (walkEntries (walk (options this)) dir (base_or baseDir dir) entries)
    as [evs thrown]; simpl.
  destruct thrown; simpl; [|reflexivity].
  now rewrite fold_left_app.
Qed.

Lemma visit_walk : forall e, visit_is_walk md5 e.
Proof.
  induction e as [name stat read | name | name listing IH] using entry_ind;
    intros this dir baseDir; simpl;
    destruct (shouldExclude (options this) _); try reflexivity.
  - destruct (hasValidExtension (options this) name); [|reflexivity].
    destruct stat as [sz|]; simpl; [|reflexivity].
    destruct (sz >=? minSize (options this)) eqn:Hsz; [|reflexivity].
    rewrite (surjective_pairing (processFile md5 _ _ _ _ _)).
    now rewrite processFile_normal.
  - now rewrite (scanDirectory_body_is_walk listing IH).
Qed.

Lemma scanDirectory_walk this dir baseDir listing :
  scanDirectory md5 this dir baseDir listing =
  (fold_left (apply_event md5)
     (walkDirectory (options this) dir baseDir listing) this,
   Normal tt).
Proof.
  apply scanDirectory_body_is_walk.
  intros es _. apply Forall_forall. intros e _. apply visit_walk.
Qed.

End ScanIsWalk.

(** ** The [Map] of buckets *)

Section Index.

Lemma index_add_nil h r : index_add [] (h, r) = [(h, [r])].
Proof.
  unfold index_add, JsMap.push. simpl. now rewrite String.eqb_refl.
Qed.

Lemma index_add_cons k v m h r :
  index_add ((k, v) :: m) (h, r) =
  if String.eqb k h then (k, v ++ [r]) :: m else (k, v) :: index_add m (h, r).
Proof.
  unfold index_add, JsMap.push; simpl.
  destruct (String.eqb k h) eqn:Hk; simpl.
  - now rewrite Hk.
  - destruct (JsMap.has m h); simpl; rewrite Hk.
    + now destruct (JsMap.get m h).
    + now destruct (JsMap.get (JsMap.set m h []) h).
Qed.

Lemma index_add_keys m h r :
  map fst (index_add m (h, r)) = add_key (map fst m) h.
Proof.
  induction m as [|[k v] m IH].
  - now rewrite index_add_nil.
  - rewrite index_add_cons. simpl.
    destruct (String.eqb k h); simpl; [reflexivity|]. now rewrite IH.
Qed.

Lemma bucket_index_add m h r h' :
  bucket (index_add m (h, r)) h' =
  if String.eqb h h' then bucket m h' ++ [r] else bucket m h'.
Proof.
  induction m as [|[k v] m IH].
  - rewrite index_add_nil. unfold bucket. simpl.
    now destruct (String.eqb h h').
  - rewrite index_add_cons.
    destruct (String.eqb k h) eqn:Hk.
    + apply String.eqb_eq in Hk. subst k. unfold bucket. simpl.
      now destruct (String.eqb h h').
    + unfold bucket in *. simpl.
      destruct (String.eqb k h') eqn:Hk'; [|exact IH].
      apply String.eqb_eq in Hk'. subst h'.
      rewrite String.eqb_sym in Hk. now rewrite Hk.
Qed.

Lemma bucket_fold_index_add ins : forall m h,
  bucket (fold_left index_add ins m) h =
  bucket m h ++ map snd (filter (fun i => String.eqb (fst i) h) ins).
Proof.
  induction ins as [|[h0 r] ins IH]; intros m h; simpl.
  - now rewrite app_nil_r.
  - rewrite IH, bucket_index_add.
    destruct (String.eqb h0 h); simpl; [|reflexivity].
    now rewrite <- app_assoc.
Qed.

Lemma keys_fold_index_add ins : forall m,
  map fst (fold_left index_add ins m) =
  fold_left add_key (map fst ins) (map fst m).
Proof.
  induction ins as [|[h r] ins IH]; intros m; simpl; [reflexivity|].
  now rewrite IH, index_add_keys.
Qed.

Lemma add_key_In ks h x : In x (add_key ks h) <-> In x ks \/ x = h.
Proof.
  induction ks as [|k ks IH]; simpl.
  - intuition.
  - destruct (String.eqb k h) eqn:Hk; simpl.
    + apply String.eqb_eq in Hk. subst. intuition.
    + rewrite IH. intuition.
Qed.

Lemma add_key_NoDup ks h : NoDup ks -> NoDup (add_key ks h).
Proof.
  induction 1 as [|k ks Hk Hnd IH]; simpl.
  - constructor; [intros []|constructor].
  - destruct (String.eqb k h) eqn:E.
    + now constructor.
    + constructor; [|exact IH].
      rewrite add_key_In. intros [H|H]; [contradiction|].
      subst. now rewrite String.eqb_refl in E.
Qed.

Lemma fold_add_key_NoDup hs : forall ks,
  NoDup ks -> NoDup (fold_left add_key hs ks).
Proof.
  induction hs as [|h hs IH]; intros ks Hks; simpl; [exact Hks|].
  now apply IH, add_key_NoDup.
Qed.

Lemma keys_NoDup ins : NoDup (map fst (fold_left index_add ins [])).
Proof.
  rewrite keys_fold_index_add. apply fold_add_key_NoDup. constructor.
Qed.

Lemma get_In m h v : JsMap.get m h = Some v -> In (h, v) m.
Proof.
  induction m as [|[k v'] m IH]; simpl; [discriminate|].
  destruct (String.eqb k h) eqn:Hk.
  - apply String.eqb_eq in Hk. intros [= ->]. subst. now left.
  - intros H. right. now apply IH.
Qed.

Lemma In_get m h v : NoDup (map fst m) -> In (h, v) m -> JsMap.get m h = Some v.
Proof.
  induction m as [|[k v'] m IH]; simpl; [intros _ []|].
  intros Hnd [H|H].
  - injection H as -> ->. now rewrite String.eqb_refl.
  - inversion Hnd as [|? ? Hk Hnd']; subst.
    destruct (String.eqb k h) eqn:E.
    + apply String.eqb_eq in E. subst k. exfalso. apply Hk.
      change h with (fst (h, v)). now apply in_map.
    + now apply IH.
Qed.

Lemma In_bucket m h v : NoDup (map fst m) -> In (h, v) m -> bucket m h = v.
Proof.
  intros Hnd H. unfold bucket. now rewrite (In_get m h v Hnd H).
Qed.

Lemma bucket_In m h : bucket m h <> [] -> In (h, bucket m h) m.
Proof.
  unfold bucket. destruct (JsMap.get m h) as [v|] eqn:E.
  - intros _. now apply get_In.
  - intros H. now contradiction H.
Qed.

Lemma record_count_index_add m h r :
  record_count (index_add m (h, r)) = record_count m + 1.
Proof.
  induction m as [|[k v] m IH].
  - rewrite index_add_nil. reflexivity.
  - rewrite index_add_cons.
    destruct (String.eqb k h); simpl.
    + rewrite length_app. simpl. lia.
    + simpl in IH. rewrite IH. lia.
Qed.

Lemma record_count_fold ins : forall m,
  record_count (fold_left index_add ins m) =
  record_count m + Z.of_nat (List.length ins).
Proof.
  induction ins as [|[h r] ins IH]; intros m.
  - simpl. lia.
  - cbn [fold_left List.length]. rewrite IH, record_count_index_add. lia.
Qed.

End Index.

(** ** What the events do to each field of the scanner *)

Section Fields.

Variable md5 : list byte -> string.

Lemma processFile_totalFiles this fullPath relativePath sz read :
  totalFiles (fst (processFile md5 this fullPath relativePath sz read)) =
  totalFiles this.
Proof.
  unfold processFile, report_progress, getFileHash, log_if.
  destruct read as [content|]; simpl.
  - destruct (JsString.truthy (md5 content)); simpl;
      destruct (verbose (options this) && _); reflexivity.
  - destruct (verbose (options this) && _); simpl;
      destruct (verbose (options this)); reflexivity.
Qed.

Lemma processFile_processedFiles this fullPath relativePath sz read :
  processedFiles (fst (processFile md5 this fullPath relativePath sz read)) =
  processedFiles this + 1.
Proof.
  unfold processFile, report_progress, getFileHash, log_if.
  destruct read as [content|]; simpl.
  - destruct (JsString.truthy (md5 content)); simpl;
      destruct (verbose (options this) && _); reflexivity.
  - destruct (verbose (options this) && _); simpl;
      destruct (verbose (options this)); reflexivity.
Qed.

Lemma apply_event_filesByHash this ev :
  filesByHash (apply_event md5 this ev) =
  match insert_of md5 (options this) ev with
  | Some i => index_add (filesByHash this) i
  | None => filesByHash this
  end.
Proof.
  destruct ev as [fullPath relativePath [sz|] read | dir]; simpl.
  - destruct (sz >=? minSize (options this)); simpl.
    + unfold processFile, report_progress, getFileHash, log_if.
      destruct read as [content|]; simpl.
      * destruct (JsString.truthy (md5 content)); simpl;
          destruct (verbose (options this) && _); reflexivity.
      * destruct (verbose (options this) && _); simpl;
          destruct (verbose (options this)); reflexivity.
    + now destruct read.
  - reflexivity.
  - unfold log_if. now destruct (verbose (options this)).
Qed.

Lemma apply_event_totalFiles this ev :
  totalFiles (apply_event md5 this ev) =
  totalFiles this + (if is_seen ev then 1 else 0).
Proof.
  destruct ev as [fullPath relativePath [sz|] read | dir]; simpl.
  - destruct (sz >=? minSize (options this)); simpl; [|reflexivity].
    now rewrite processFile_totalFiles.
  - reflexivity.
  - unfold log_if. destruct (verbose (options this)); simpl; lia.
Qed.

Lemma apply_event_processedFiles this ev :
  processedFiles (apply_event md5 this ev) =
  processedFiles this + (if attempted (options this) ev then 1 else 0).
Proof.
  destruct ev as [fullPath relativePath [sz|] read | dir]; simpl.
  - destruct (sz >=? minSize (options this)); simpl; [|lia].
    now rewrite processFile_processedFiles.
  - lia.
  - unfold log_if. destruct (verbose (options this)); simpl; lia.
Qed.

Lemma fold_apply_filesByHash evs : forall this,
  filesByHash (fold_left (apply_event md5) evs this) =
  fold_left index_add (inserts md5 (options this) evs) (filesByHash this).
Proof.
  induction evs as [|ev evs IH]; intros this; simpl; [reflexivity|].
  rewrite IH, apply_event_options, apply_event_filesByHash.
  now destruct (insert_of md5 (options this) ev).
Qed.

Lemma fold_apply_totalFiles evs : forall this,
  totalFiles (fold_left (apply_event md5) evs this) =
  totalFiles this + Z.of_nat (List.length (filter is_seen evs)).
Proof.
  induction evs as [|ev evs IH]; intros this; simpl; [lia|].
  rewrite IH, apply_event_totalFiles.
  destruct (is_seen ev); simpl List.length; lia.
Qed.

Lemma fold_apply_processedFiles evs : forall this,
  processedFiles (fold_left (apply_event md5) evs this) =
  processedFiles this +
  Z.of_nat (List.length (filter (attempted (options this)) evs)).
Proof.
  induction evs as [|ev evs IH]; intros this; simpl; [lia|].
  rewrite IH, apply_event_options, apply_event_processedFiles.
  destruct (attempted (options this) ev); simpl List.length; lia.
Qed.

(** Every attempted file either adds a record or could not be read, when
    no digest is the empty string. *)
Lemma attempted_split o evs :
  (forall content, md5 content <> "") ->
  List.length (filter (attempted o) evs) =
  (List.length (inserts md5 o evs) +
   List.length (filter (unreadable o) evs))%nat.
Proof.
  intros Hne.
  induction evs as [|ev evs IH]; [reflexivity|].
  destruct ev as [fullPath relativePath [sz|] [content|] | dir];
    simpl; try exact IH.
  - destruct (sz >=? minSize o); simpl; [|exact IH].
    replace (JsString.truthy (md5 content)) with true.
    + simpl. now rewrite IH.
    + unfold JsString.truthy. specialize (Hne content).
      apply String.eqb_neq in Hne. now rewrite Hne.
  - destruct (sz >=? minSize o); simpl; [|exact IH].
    rewrite IH. lia.
Qed.

End Fields.

(** ** The groups of [analyze] *)

Section Groups.

Lemma collect_eq acc kv :
  collect acc kv =
  (fst acc ++ group_of kv, snd acc + sum_wasted (group_of kv)).
Proof.
  unfold group_of, collect. destruct kv as [h fs].
  destruct (Z.of_nat (List.length fs) >? 1).
  - destruct fs as [|f0 fs]; simpl.
    + rewrite app_nil_r, Z.add_0_r. now destruct acc.
    + f_equal. lia.
  - simpl. rewrite app_nil_r, Z.add_0_r. now destruct acc.
Qed.

Lemma sum_wasted_app gs1 gs2 :
  sum_wasted (gs1 ++ gs2) = sum_wasted gs1 + sum_wasted gs2.
Proof.
  induction gs1 as [|g gs1 IH]; simpl; [reflexivity|]. rewrite IH. lia.
Qed.

Lemma fold_collect m : forall acc,
  fold_left collect m acc =
  (fst acc ++ groups_of m, snd acc + sum_wasted (groups_of m)).
Proof.
  induction m as [|kv m IH]; intros acc; simpl.
  - rewrite app_nil_r, Z.add_0_r. now destruct acc.
  - rewrite IH, collect_eq. simpl.
    rewrite sum_wasted_app, <- app_assoc. f_equal. lia.
Qed.

Lemma group_of_In g h fs :
  In g (group_of (h, fs)) ->
  (2 <= List.length fs)%nat /\
  exists f0 rest,
    fs = f0 :: rest /\
    g = {| hash := h;
           count := Z.of_nat (List.length fs);
           fileSize := size f0;
           wastedBytes := size f0 * (Z.of_nat (List.length fs) - 1);
           groupExtension := extension f0;
           files := map relativePath fs |}.
Proof.
  unfold group_of, collect.
  destruct (Z.of_nat (List.length fs) >? 1) eqn:Hn; [|intros []].
  destruct fs as [|f0 rest]; [intros []|].
  simpl fst. intros [<-|[]].
  split; [apply Z.gtb_lt in Hn; lia|].
  now exists f0, rest.
Qed.

Lemma group_of_hash g kv : In g (group_of kv) -> hash g = fst kv.
Proof.
  destruct kv as [h fs]. intros H.
  destruct (group_of_In g h fs H) as [_ (f0 & rest & _ & ->)]. reflexivity.
Qed.

Lemma groups_of_In g m :
  In g (groups_of m) <-> exists kv, In kv m /\ In g (group_of kv).
Proof. apply in_flat_map. Qed.

Lemma group_of_big h fs :
  (2 <= List.length fs)%nat ->
  exists g, In g (group_of (h, fs)) /\ files g = map relativePath fs.
Proof.
  intros Hlen. unfold group_of, collect.
  replace (Z.of_nat (List.length fs) >? 1) with true
    by (symmetry; apply Z.gtb_lt; lia).
  destruct fs as [|f0 rest]; [simpl in Hlen; lia|].
  eexists. split; [left; reflexivity|reflexivity].
Qed.

End Groups.

(** ** Order: [before], the stable sort, the order of discovery *)

Section Order.

Lemma before_In {A : Type} (x y : A) l : before x y l -> In x l /\ In y l.
Proof.
  induction l as [|a l IH]; simpl; [intros []|].
  intros [[-> Hy]|H]; [now auto|]. destruct (IH H). auto.
Qed.

Lemma before_app {A : Type} (x y : A) l1 l2 :
  before x y (l1 ++ l2) <->
  before x y l1 \/ before x y l2 \/ (In x l1 /\ In y l2).
Proof.
  induction l1 as [|a l1 IH]; simpl.
  - intuition.
  - rewrite IH, in_app_iff. intuition.
Qed.

Lemma sort_insert_split {A : Type} (cmp : A -> A -> Z) a l :
  exists s1 s2,
    l = s1 ++ s2 /\ sort_insert cmp a l = s1 ++ a :: s2 /\
    Forall (fun b => cmp a b > 0) s1.
Proof.
  induction l as [|b l (s1 & s2 & Hl & Hi & Hs)]; simpl.
  - exists [], []. repeat split. constructor.
  - destruct (cmp a b >? 0) eqn:E.
    + exists (b :: s1), s2. simpl. rewrite Hi, Hl. repeat split.
      constructor; [now apply Z.gtb_lt in E; lia | exact Hs].
    + exists [], (b :: l). repeat split. constructor.
Qed.

Lemma sort_insert_perm {A : Type} (cmp : A -> A -> Z) a l :
  Permutation (a :: l) (sort_insert cmp a l).
Proof.
  destruct (sort_insert_split cmp a l) as (s1 & s2 & -> & -> & _).
  apply Permutation_middle.
Qed.

Lemma Array_sort_perm {A : Type} (cmp : A -> A -> Z) l :
  Permutation l (Array_sort cmp l).
Proof.
  induction l as [|a l IH]; simpl; [constructor|].
  etransitivity; [|apply sort_insert_perm]. now constructor.
Qed.

Lemma sort_insert_sorted a l :
  StronglySorted wasted_ge l ->
  StronglySorted wasted_ge (sort_insert by_wasted a l).
Proof.
  induction 1 as [|b l Hl IH Hb]; simpl.
  - repeat constructor.
  - unfold by_wasted at 1. destruct (wastedBytes b - wastedBytes a >? 0) eqn:E.
    + constructor; [exact IH|].
      apply (Permutation_Forall (sort_insert_perm by_wasted a l)).
      constructor; [|exact Hb].
      apply Z.gtb_lt in E. unfold wasted_ge. lia.
    + assert (Hab : wasted_ge a b).
      { unfold wasted_ge. destruct (Z.gtb_spec (wastedBytes b - wastedBytes a) 0);
          [discriminate|lia]. }
      constructor; [now constructor|].
      constructor; [exact Hab|].
      eapply Forall_impl; [|exact Hb]. unfold wasted_ge in *. intros; lia.
Qed.

Lemma Array_sort_sorted l :
  StronglySorted wasted_ge (Array_sort by_wasted l).
Proof.
  induction l as [|a l IH]; simpl; [constructor|].
  now apply sort_insert_sorted.
Qed.

(** The sort is stable: two groups with the same wasted bytes keep the
    order they had. *)
Lemma Array_sort_stable x y l :
  before x y (Array_sort by_wasted l) ->
  wastedBytes x = wastedBytes y ->
  before x y l.
Proof.
  intros H Heq. induction l as [|a l IH]; simpl in *; [exact H|].
  destruct (sort_insert_split by_wasted a (Array_sort by_wasted l))
    as (s1 & s2 & Hl & Hi & Hs).
  rewrite Hi in H. rewrite Hl in IH.
  assert (Hin : forall z, In z s2 -> In z l).
  { intros z Hz.
    apply (Permutation_in z (Permutation_sym (Array_sort_perm by_wasted l))).
    rewrite Hl. apply in_app_iff. now right. }
  apply before_app in H. destruct H as [H|[H|[Hx Hy]]].
  - right. apply IH, before_app. now left.
  - simpl in H. destruct H as [[-> Hy]|H].
    + left. split; [reflexivity|]. now apply Hin.
    + right. apply IH, before_app. right. now left.
  - destruct Hy as [->|Hy].
    + exfalso. rewrite Forall_forall in Hs. specialize (Hs x Hx).
      unfold by_wasted in Hs. lia.
    + right. apply IH, before_app. right. right. now split.
Qed.

Lemma sum_wasted_perm l1 l2 :
  Permutation l1 l2 -> sum_wasted l1 = sum_wasted l2.
Proof.
  induction 1; simpl; lia.
Qed.

Lemma groups_of_before g1 g2 m :
  before g1 g2 (groups_of m) -> before (hash g1) (hash g2) (map fst m).
Proof.
  induction m as [|kv m IH]; simpl; [intros []|].
  unfold groups_of in *. simpl. intros H.
  apply before_app in H. destruct H as [H|[H|[H1 H2]]].
  - unfold group_of, collect in H. destruct kv as [h fs].
    destruct (Z.of_nat (List.length fs) >? 1); [|destruct H].
    destruct fs; simpl in H; [destruct H|].
    destruct H as [[_ []]|[]].
  - right. now apply IH.
  - left. split; [symmetry; now apply group_of_hash|].
    apply groups_of_In in H2. destruct H2 as (kv' & Hkv' & Hg).
    rewrite (group_of_hash g2 kv' Hg). now apply in_map.
Qed.

Lemma add_key_before h1 h2 ks h :
  before h1 h2 (add_key ks h) ->
  before h1 h2 ks \/ (In h1 ks /\ ~ In h2 ks /\ h2 = h).
Proof.
  induction ks as [|k ks IH]; simpl.
  - intros [[_ []]|[]].
  - destruct (String.eqb k h) eqn:E; simpl; [now left|].
    intros [[-> Hin]|H].
    + apply add_key_In in Hin. destruct Hin as [Hin| ->]; [now auto|].
      destruct (in_dec string_dec h ks) as [Hh|Hh]; [now auto|].
      right. repeat split; [now left|].
      intros [->|Hc]; [|contradiction]. now rewrite String.eqb_refl in E.
    + destruct (IH H) as [Hb|(Hh1 & Hh2 & ->)]; [now auto|].
      destruct (string_dec k h) as [->|Hk];
        [now rewrite String.eqb_refl in E|].
      right. repeat split; [now right|].
      intros [Hc|Hc]; [contradiction|contradiction].
Qed.

(** The keys of the [Map] are in the order of first occurrence. *)
Lemma fold_add_key_before h1 h2 hs : forall ks,
  NoDup ks ->
  before h1 h2 (fold_left add_key hs ks) ->
  before h1 h2 ks \/
  (In h1 ks /\ ~ In h2 ks /\ In h2 hs) \/
  (~ In h1 ks /\ ~ In h2 ks /\ first_before h1 h2 hs).
Proof.
  induction hs as [|h hs IH]; intros ks Hnd H; simpl in *; [now left|].
  destruct (IH _ (add_key_NoDup ks h Hnd) H) as [Hb|[(H1 & H2 & H3)|(H1 & H2 & H3)]].
  - destruct (add_key_before _ _ _ _ Hb) as [Hb'|(Ha & Hb' & ->)]; [now left|].
    right. left. repeat split; auto.
  - rewrite add_key_In in H1, H2.
    assert (Hh2 : h2 <> h) by (intros ->; apply H2; now right).
    assert (Hk2 : ~ In h2 ks) by (intros Hc; apply H2; now left).
    destruct (in_dec string_dec h1 ks) as [Hin|Hnin].
    + right. left. repeat split; auto.
    + right. right. destruct H1 as [H1| ->]; [contradiction|].
      repeat split; auto.
      exists [], hs. repeat split; auto.
  - rewrite add_key_In in H1, H2.
    right. right.
    assert (Hh1 : h1 <> h) by (intros ->; apply H1; now right).
    assert (Hh2 : h2 <> h) by (intros ->; apply H2; now right).
    repeat split; [intros Hc; apply H1; now left
                  |intros Hc; apply H2; now left
                  |apply H3|].
    destruct H3 as (_ & l1 & l2 & -> & Hn1 & Hn2 & Hin).
    exists (h :: l1), l2. repeat split; auto.
    + intros [Hc|Hc]; [now symmetry in Hc|contradiction].
    + intros [Hc|Hc]; [now symmetry in Hc|contradiction].
Qed.

Lemma keys_first_before h1 h2 ins :
  before h1 h2 (map fst (fold_left index_add ins [])) ->
  first_before h1 h2 (map fst ins).
Proof.
  rewrite keys_fold_index_add. intros H.
  destruct (fold_add_key_before h1 h2 (map fst ins) [] (NoDup_nil _) H)
    as [[]|[([] & _)|(_ & _ & Hf)]].
  exact Hf.
Qed.

End Order.

(** ** What a scan returns *)

Section ScanReport.

Variable md5 : list byte -> string.

Lemma analyze_eq this directory listing :
  let this1 :=
    fold_left (apply_event md5)
      (walkDirectory (options this) directory None listing)
      (log this (LogScanning directory)) in
  let this2 :=
    log_if (verbose (options this1)) this1 (LogProcessed (processedFiles this1)) in
  let groups := Array_sort by_wasted (groups_of (filesByHash this2)) in
  analyze md5 this directory listing =
  (this2,
   Normal
     {| stats :=
          {| totalFilesScanned := totalFiles this2;
             totalFilesProcessed := processedFiles this2;
             uniqueFiles := Z.of_nat (List.length (filesByHash this2));
             duplicateGroupCount := Z.of_nat (List.length groups);
             totalDuplicates :=
               fold_left (fun acc g => acc + count g - 1) groups 0;
             totalWastedBytes := sum_wasted (groups_of (filesByHash this2)) |};
        duplicateGroups := groups |}).
Proof.
  intros this1 this2 groups. unfold analyze.
  rewrite scanDirectory_walk. cbn [options log].
  fold this1. fold this2.
  rewrite fold_collect. reflexivity.
Qed.

(** The facts about the result of a scan that the properties below use. *)
Lemma scan_inv o directory listing out this r :
  scan md5 o directory listing out = (this, Normal r) ->
  let ops := scan_options o in
  let evs := scan_events o directory listing in
  options this = ops /\
  filesByHash this = fold_left index_add (inserts md5 ops evs) [] /\
  duplicateGroups r = Array_sort by_wasted (groups_of (filesByHash this)) /\
  totalFilesScanned (stats r) = Z.of_nat (List.length (filter is_seen evs)) /\
  totalFilesProcessed (stats r) =
    Z.of_nat (List.length (filter (attempted ops) evs)) /\
  totalWastedBytes (stats r) = sum_wasted (groups_of (filesByHash this)).
Proof.
  unfold scan. rewrite analyze_eq. cbv zeta.
  set (this1 := fold_left _ _ _).
  assert (Ho : options this1 = scan_options o)
    by (unfold this1; now rewrite fold_apply_options).
  assert (Hf : filesByHash this1 =
               fold_left index_add
                 (inserts md5 (scan_options o)
                    (scan_events o directory listing)) [])
    by (unfold this1; now rewrite fold_apply_filesByHash).
  assert (Ht : totalFiles this1 =
               Z.of_nat (List.length
                 (filter is_seen (scan_events o directory listing))))
    by (unfold this1; now rewrite fold_apply_totalFiles).
  assert (Hp : processedFiles this1 =
               Z.of_nat (List.length
                 (filter (attempted (scan_options o))
                    (scan_events o directory listing))))
    by (unfold this1; now rewrite fold_apply_processedFiles).
  assert (Hl : forall b x, options (log_if b this1 x) = options this1 /\
                 filesByHash (log_if b this1 x) = filesByHash this1 /\
                 totalFiles (log_if b this1 x) = totalFiles this1 /\
                 processedFiles (log_if b this1 x) = processedFiles this1)
    by (intros [] x; repeat split).
  intros [= <- <-]. cbn [stats duplicateGroups totalFilesScanned
    totalFilesProcessed totalWastedBytes].
  destruct (Hl (verbose (options this1)) (LogProcessed (processedFiles this1)))
    as (-> & -> & -> & ->).
  repeat split; assumption.
Qed.

(** A scan always returns a report. *)
Lemma scan_returns o directory listing out :
  exists this r, scan md5 o directory listing out = (this, Normal r).
Proof.
  unfold scan. rewrite analyze_eq. eexists. eexists. reflexivity.
Qed.

End ScanReport.

(** ** Grouping by content (C1) *)

Section Grouping.

Variable md5 : list byte -> string.

Lemma inserts_In ops evs i :
  In i (inserts md5 ops evs) <->
  exists ev, In ev evs /\ insert_of md5 ops ev = Some i.
Proof.
  induction evs as [|ev evs IH]; simpl.
  - split; [intros []|intros (ev & [] & _)].
  - destruct (insert_of md5 ops ev) as [i0|] eqn:E; simpl; rewrite IH.
    + split.
      * intros [<-|(ev' & Hin & He)]; [now exists ev; auto|].
        exists ev'. auto.
      * intros (ev' & [<-|Hin] & He); [left; congruence|].
        right. now exists ev'.
    + split.
      * intros (ev' & Hin & He). exists ev'. auto.
      * intros (ev' & [<-|Hin] & He); [congruence|]. now exists ev'.
Qed.

Lemma hashed_file_insert ops evs rel content :
  hashed_file md5 ops evs rel content ->
  exists f, In (md5 content, f) (inserts md5 ops evs) /\ relativePath f = rel.
Proof.
  intros (fullPath & sz & Hin & Hsz & Hne).
  exists {| path := fullPath;
            relativePath := rel;
            size := sz;
            extension := JsString.toLowerCase (Path.extname fullPath) |}.
  split; [|reflexivity].
  apply inserts_In.
  exists (Seen fullPath rel (Some sz) (Some content)). split; [exact Hin|].
  simpl. replace (sz >=? minSize ops) with true
    by (symmetry; apply Z.geb_le; lia).
  unfold JsString.truthy. apply String.eqb_neq in Hne. rewrite Hne.
  reflexivity.
Qed.

Lemma two_distinct_length {A : Type} (a b : A) l :
  In a l -> In b l -> a <> b -> (2 <= List.length l)%nat.
Proof.
  destruct l as [|x [|y l]]; simpl.
  - intros [].
  - intros [<-|[]] [<-|[]] H. now contradiction H.
  - intros _ _ _. lia.
Qed.

Lemma NoDup_map_eq {A B : Type} (f : A -> B) l a b :
  NoDup (map f l) -> In a l -> In b l -> f a = f b -> a = b.
Proof.
  induction l as [|x l IH]; simpl; [intros _ []|].
  intros Hnd Ha Hb Hf. inversion Hnd as [|? ? Hx Hnd']; subst.
  destruct Ha as [<-|Ha], Hb as [<-|Hb]; auto.
  - exfalso. apply Hx. rewrite Hf. now apply in_map.
  - exfalso. apply Hx. rewrite <- Hf. now apply in_map.
Qed.

Lemma bucket_of_inserts ins h f :
  In (h, f) ins -> In f (bucket (fold_left index_add ins []) h).
Proof.
  intros Hin. rewrite bucket_fold_index_add. simpl.
  change f with (snd (h, f)). apply in_map, filter_In.
  split; [exact Hin|]. simpl. apply String.eqb_refl.
Qed.

Lemma bucket_from_inserts ins h f :
  In f (bucket (fold_left index_add ins []) h) -> In (h, f) ins.
Proof.
  rewrite bucket_fold_index_add. simpl.
  intros Hin. apply in_map_iff in Hin. destruct Hin as ([h' f'] & <- & Hin).
  apply filter_In in Hin. destruct Hin as [Hin Heq]. simpl in *.
  apply String.eqb_eq in Heq. now subst.
Qed.

(** C1. Two files that pass the filters and are hashed in one scan, at
    distinct relative paths: when their contents are byte-identical, some
    duplicate group of the report lists both; when their contents differ, no
    group lists both. The digest is injective on the contents the scan
    hashes, and distinct hashed files have distinct relative paths. *)
Theorem same_content_same_group o directory listing out this r :
  scan md5 o directory listing out = (this, Normal r) ->
  let ops := scan_options o in
  let evs := scan_events o directory listing in
  (forall rel1 c1 rel2 c2,
     hashed_file md5 ops evs rel1 c1 -> hashed_file md5 ops evs rel2 c2 ->
     md5 c1 = md5 c2 -> c1 = c2) ->
  NoDup (map (fun i => relativePath (snd i)) (inserts md5 ops evs)) ->
  forall rel1 c1 rel2 c2,
    hashed_file md5 ops evs rel1 c1 ->
    hashed_file md5 ops evs rel2 c2 ->
    rel1 <> rel2 ->
    (c1 = c2 ->
     exists g, In g (duplicateGroups r) /\
               In rel1 (files g) /\ In rel2 (files g)) /\
    (c1 <> c2 ->
     forall g, In g (duplicateGroups r) ->
               ~ (In rel1 (files g) /\ In rel2 (files g))).
Proof.
  intros Hscan ops evs Hinj Hnd rel1 c1 rel2 c2 H1 H2 Hrel.
  destruct (scan_inv md5 o directory listing out this r Hscan)
    as (_ & Hidx & Hgroups & _).
  fold ops evs in Hidx.
  destruct (hashed_file_insert _ _ _ _ H1) as (f1 & Hi1 & Hf1).
  destruct (hashed_file_insert _ _ _ _ H2) as (f2 & Hi2 & Hf2).
  split.
  - intros <-.
    set (h := md5 c1) in *.
    assert (Hb1 := bucket_of_inserts _ _ _ Hi1).
    assert (Hb2 := bucket_of_inserts _ _ _ Hi2).
    rewrite <- Hidx in Hb1, Hb2.
    assert (Hlen : (2 <= List.length (bucket (filesByHash this) h))%nat).
    { apply (two_distinct_length f1 f2); auto. congruence. }
    destruct (group_of_big h _ Hlen) as (g & Hg & Hfiles).
    exists g. repeat split.
    + rewrite Hgroups.
      apply (Permutation_in g (Array_sort_perm by_wasted _)).
      apply groups_of_In. eexists. split; [|exact Hg].
      apply bucket_In. intros Hc. rewrite Hc in Hlen. simpl in Hlen. lia.
    + rewrite Hfiles, <- Hf1. now apply in_map.
    + rewrite Hfiles, <- Hf2. now apply in_map.
  - intros Hne g Hg [Hg1 Hg2]. apply Hne.
    rewrite Hgroups in Hg.
    apply (Permutation_in g (Permutation_sym (Array_sort_perm by_wasted _)))
      in Hg.
    apply groups_of_In in Hg. destruct Hg as ([h fs] & Hkv & Hg).
    assert (Hfs : bucket (filesByHash this) h = fs).
    { apply In_bucket; [|exact Hkv]. rewrite Hidx. apply keys_NoDup. }
    destruct (group_of_In g h fs Hg) as (_ & f0 & rest & _ & ->).
    cbn [files] in Hg1, Hg2. rewrite <- Hfs, Hidx in Hg1, Hg2.
    assert (Hkey : forall rel c f,
               In (md5 c, f) (inserts md5 ops evs) -> relativePath f = rel ->
               In rel (map relativePath
                         (bucket (fold_left index_add (inserts md5 ops evs) [])
                                 h)) ->
               md5 c = h).
    { intros rel c f Hi Hf Hin.
      apply in_map_iff in Hin. destruct Hin as (f' & Hf' & Hin).
      apply bucket_from_inserts in Hin.
      assert (E : (md5 c, f) = (h, f')).
      { apply (NoDup_map_eq _ _ _ _ Hnd Hi Hin). simpl. congruence. }
      congruence. }
    apply (Hinj rel1 c1 rel2 c2 H1 H2).
    rewrite (Hkey rel1 c1 f1 Hi1 Hf1 Hg1).
    now rewrite (Hkey rel2 c2 f2 Hi2 Hf2 Hg2).
Qed.

End Grouping.

(** ** Wasted bytes (C2) *)

Section Wasted.

Variable md5 : list byte -> string.

(** C2. Every duplicate group of the report is made of a bucket of
    [filesByHash] with N >= 2 records; its [count] is N, and when the N
    files have size S its [wastedBytes] is S * (N - 1). The
    [totalWastedBytes] of the report is the sum of the [wastedBytes] of its
    groups. *)
Theorem wasted_bytes_of_groups o directory listing out this r :
  scan md5 o directory listing out = (this, Normal r) ->
  (forall g, In g (duplicateGroups r) ->
     exists fs,
       In (hash g, fs) (filesByHash this) /\
       files g = map relativePath fs /\
       count g = Z.of_nat (List.length fs) /\
       2 <= count g /\
       forall S, (forall f, In f fs -> size f = S) ->
                 fileSize g = S /\ wastedBytes g = S * (count g - 1)) /\
  totalWastedBytes (stats r) = sum_wasted (duplicateGroups r).
Proof.
  intros Hscan.
  destruct (scan_inv md5 o directory listing out this r Hscan)
    as (_ & _ & Hgroups & _ & _ & Htotal).
  split.
  - intros g Hg. rewrite Hgroups in Hg.
    apply (Permutation_in g (Permutation_sym (Array_sort_perm by_wasted _)))
      in Hg.
    apply groups_of_In in Hg. destruct Hg as ([h fs] & Hkv & Hg).
    destruct (group_of_In g h fs Hg) as (Hlen & f0 & rest & Hfs & ->).
    exists fs. cbn [hash files count fileSize wastedBytes].
    repeat split; auto; try lia.
    + apply H. rewrite Hfs. now left.
    + rewrite (H f0); [reflexivity|]. rewrite Hfs. now left.
  - rewrite Htotal, Hgroups.
    apply sum_wasted_perm, Array_sort_perm.
Qed.

End Wasted.

(** ** Exclusion (C3) *)

Section Exclusion.

Variable md5 : list byte -> string.

Lemma shouldExclude_substring ops rel pattern a b :
  In pattern (excludePatterns ops) ->
  rel = (a ++ pattern ++ b)%string ->
  shouldExclude ops rel = true.
Proof.
  intros Hin ->. unfold shouldExclude. apply existsb_exists.
  exists pattern. split; [exact Hin|].
  now rewrite includes_substring.
Qed.

Lemma walkEntries_cons ops dir baseDir e rest :
  walkEntries (walk ops) dir baseDir (e :: rest) =
  (if snd (walk ops e dir baseDir)
   then fst (walk ops e dir baseDir)
   else fst (walk ops e dir baseDir) ++
        fst (walkEntries (walk ops) dir baseDir rest),
   snd (walk ops e dir baseDir) ||
   snd (walkEntries (walk ops) dir baseDir rest)).
Proof.
  simpl. destruct (walk ops e dir baseDir) as [evs []]; simpl.
  - reflexivity.
  - now destruct (walkEntries (walk ops) dir baseDir rest).
Qed.

Lemma walkEntries_skip ops dir baseDir e rest :
  walk ops e dir baseDir = ([], false) ->
  walkEntries (walk ops) dir baseDir (e :: rest) =
  walkEntries (walk ops) dir baseDir rest.
Proof.
  intros H. simpl. rewrite H.
  now destruct (walkEntries (walk ops) dir baseDir rest).
Qed.

Lemma walkEntries_prune ops dir baseDir entries :
  Forall (walk_ignores_excluded ops) entries ->
  forall rest,
    walkEntries (walk ops) dir baseDir
      (flat_map (prune ops dir baseDir) entries ++ rest) =
    walkEntries (walk ops) dir baseDir (entries ++ rest).
Proof.
  induction 1 as [|e entries He _ IH]; intros rest; simpl; [reflexivity|].
  rewrite <- app_assoc, He.
  change (walkEntries (walk ops) dir baseDir
            (e :: flat_map (prune ops dir baseDir) entries ++ rest) =
          walkEntries (walk ops) dir baseDir (e :: entries ++ rest)).
  now rewrite !walkEntries_cons, IH.
Qed.

Lemma walk_prune ops : forall e, walk_ignores_excluded ops e.
Proof.
  induction e as [name stat read | name | name listing IH] using entry_ind;
    intros dir baseDir rest; unfold prune; fold prune; cbn [entry_name];
    destruct (shouldExclude ops _) eqn:Hex;
    try reflexivity;
    try (simpl app; symmetry; apply walkEntries_skip; simpl;
         now rewrite Hex).
  destruct listing as [entries|]; [|reflexivity].
  simpl app. rewrite !walkEntries_cons. f_equal.
  - f_equal; f_equal; simpl; rewrite Hex; unfold walkDirectory_body;
      rewrite <- (app_nil_r (flat_map _ entries)),
        (walkEntries_prune _ _ _ entries (IH entries eq_refl)), app_nil_r;
      reflexivity.
  - f_equal. simpl. now rewrite Hex.
Qed.

Lemma walkDirectory_prune ops dir baseDir listing :
  walkDirectory ops dir baseDir (prune_listing ops dir baseDir listing) =
  walkDirectory ops dir baseDir listing.
Proof.
  destruct listing as [entries|]; [|reflexivity].
  unfold walkDirectory, walkDirectory_body, prune_listing.
  rewrite <- (app_nil_r (flat_map _ entries)), walkEntries_prune, app_nil_r.
  - reflexivity.
  - apply Forall_forall. intros e _. apply walk_prune.
Qed.

(** C3. An entry whose path relative to the scan root contains an exclude
    pattern as a substring is skipped by the loop whatever it is: the
    scanner is left as it was, nothing is counted, hashed or written, and
    the loop goes on. Pruning drops such an entry with all that is below
    it, and scanning the pruned tree is scanning the tree. *)
Theorem excluded_never_visited this dir baseDir e pattern a b :
  In pattern (excludePatterns (options this)) ->
  Path.relative baseDir (Path.join dir (entry_name e)) =
    (a ++ pattern ++ b)%string ->
  visit md5 e this dir baseDir = (this, Normal tt) /\
  (forall rest,
     scanEntries (visit md5) dir baseDir (e :: rest) this =
     scanEntries (visit md5) dir baseDir rest this) /\
  prune (options this) dir baseDir e = [] /\
  forall directory base listing,
    scanDirectory md5 this directory base
      (prune_listing (options this) directory base listing) =
    scanDirectory md5 this directory base listing.
Proof.
  intros Hin Hrel.
  assert (Hex := shouldExclude_substring _ _ _ _ _ Hin Hrel).
  assert (Hv : visit md5 e this dir baseDir = (this, Normal tt))
    by (destruct e; simpl in *; now rewrite Hex).
  repeat split.
  - exact Hv.
  - intros rest. simpl. now rewrite Hv.
  - destruct e as [? ? ?|? [?|]|?]; simpl in *; now rewrite Hex.
  - intros directory base listing.
    now rewrite !scanDirectory_walk, walkDirectory_prune.
Qed.

End Exclusion.

(** ** The minimum size and the counters (C4, C5, C6) *)

Section Counters.

Variable md5 : list byte -> string.

Lemma hasValidExtension_In ops name :
  In (JsString.toLowerCase (Path.extname name)) (extensions ops) ->
  hasValidExtension ops name = true.
Proof.
  intros Hin. unfold hasValidExtension. apply existsb_exists.
  eexists. split; [exact Hin|]. apply String.eqb_refl.
Qed.

Lemma inserts_minSize ops evs i :
  In i (inserts md5 ops evs) -> minSize ops <= size (snd i).
Proof.
  intros Hin. apply inserts_In in Hin. destruct Hin as (ev & _ & He).
  destruct ev as [fullPath rel [sz|] [content|] | dir]; try discriminate.
  simpl in He.
  destruct (sz >=? minSize ops) eqn:Hsz; [|discriminate].
  destruct (JsString.truthy (md5 content)); [|discriminate].
  injection He as <-. simpl. apply Z.geb_le in Hsz. lia.
Qed.

(** No record of [filesByHash] is of a file below the minimum size. *)
Lemma records_minSize o directory listing out this r :
  scan md5 o directory listing out = (this, Normal r) ->
  forall h fs f,
    In (h, fs) (filesByHash this) -> In f fs ->
    minSize (scan_options o) <= size f.
Proof.
  intros Hscan h fs f Hkv Hf.
  destruct (scan_inv md5 o directory listing out this r Hscan)
    as (_ & Hidx & _).
  assert (Hb : bucket (filesByHash this) h = fs).
  { apply In_bucket; [|exact Hkv]. rewrite Hidx. apply keys_NoDup. }
  rewrite <- Hb, Hidx in Hf. apply bucket_from_inserts in Hf.
  apply (inserts_minSize _ _ _ Hf).
Qed.


Lemma seen_split ops evs :
  List.length (filter is_seen evs) =
  (List.length (filter (attempted ops) evs) +
   List.length (filter (below_minSize ops) evs) +
   List.length (filter stat_failed evs))%nat.
Proof.
  induction evs as [|ev evs IH]; [reflexivity|].
  destruct ev as [fullPath rel [sz|] read | dir]; simpl; try lia.
  destruct (Z.geb_spec sz (minSize ops)), (Z.ltb_spec sz (minSize ops));
    simpl; lia.
Qed.

(** C5, as the code has it. A file smaller than [minSize] is not hashed
    and not counted as processed: no record of [filesByHash] is of such a
    file, and [totalFilesProcessed] counts only the files of at least
    [minSize] bytes. It is counted as scanned: [totalFilesScanned] is the
    number of all the files the walk has seen with an allowed extension, the
    processed ones, the ones below [minSize] and the ones [statSync] failed
    on. *)
Theorem small_file_counted_as_scanned o directory listing out this r :
  scan md5 o directory listing out = (this, Normal r) ->
  let ops := scan_options o in
  let evs := scan_events o directory listing in
  totalFilesScanned (stats r) =
    totalFilesProcessed (stats r) +
    Z.of_nat (List.length (filter (below_minSize ops) evs)) +
    Z.of_nat (List.length (filter stat_failed evs)) /\
  totalFilesProcessed (stats r) =
    Z.of_nat (List.length (filter (attempted ops) evs)) /\
  forall h fs f,
    In (h, fs) (filesByHash this) -> In f fs -> minSize ops <= size f.
Proof.
  intros Hscan ops evs.
  destruct (scan_inv md5 o directory listing out this r Hscan)
    as (_ & _ & _ & Hseen & Hproc & _).
  fold ops evs in Hseen, Hproc.
  repeat split.
  - rewrite Hseen, Hproc, (seen_split ops evs). lia.
  - exact Hproc.
  - exact (records_minSize _ _ _ _ _ _ Hscan).
Qed.

(** C6, as the code has it. [totalFilesProcessed] is the number of calls
    of [processFile]: the number of records of [filesByHash] plus the number
    of files that were large enough and could not be read. The digest is
    never the empty string. *)
Theorem processed_counts_attempts o directory listing out this r :
  (forall content, md5 content <> "") ->
  scan md5 o directory listing out = (this, Normal r) ->
  totalFilesProcessed (stats r) =
    record_count (filesByHash this) +
    Z.of_nat
      (List.length
         (filter (unreadable (scan_options o))
                 (scan_events o directory listing))).
Proof.
  intros Hne Hscan.
  destruct (scan_inv md5 o directory listing out this r Hscan)
    as (_ & Hidx & _ & _ & Hproc & _).
  rewrite Hproc, Hidx, record_count_fold, (attempted_split md5 _ _ Hne).
  simpl record_count. lia.
Qed.

End Counters.

(** ** Failures of the file system (C7) *)

Section Failures.

Variable md5 : list byte -> string.

(** Whatever happens below, [scanDirectory] returns normally. *)
Lemma scanDirectory_returns this dir baseDir listing :
  exists this', scanDirectory md5 this dir baseDir listing = (this', Normal tt).
Proof.
  rewrite scanDirectory_walk. eexists. reflexivity.
Qed.

(** When [statSync] throws on a file the loop has counted, the exception
    leaves the loop: the entries after the file are not visited, and the
    [catch] of the directory ends the call normally. *)
Lemma stat_failure_leaves_the_loop this dir baseDir name read rest :
  shouldExclude (options this)
    (Path.relative baseDir (Path.join dir name)) = false ->
  hasValidExtension (options this) name = true ->
  scanEntries (visit md5) dir baseDir (File name None read :: rest) this =
  (incr_totalFiles this, Throw).
Proof.
  intros Hex Hext. simpl. now rewrite Hex, Hext.
Qed.

(** C7. A file that is not excluded, has an allowed extension and is
    large enough, and whose content cannot be read: the iteration ends
    normally, [filesByHash] is as before, and the scanner is the one
    [processFile] had when it tried to read (the file counted as scanned and
    as processed), with one error line more when [verbose] is set; the loop
    goes on with the next entry. A directory of any name that is not
    excluded and cannot be listed: the iteration ends normally, the scanner
    only gets one error line when [verbose] is set, its index and counters
    are as before, and the loop goes on with the next entry. No call of
    [scanDirectory] throws, and a scan always returns a report. *)
Theorem io_failures_do_not_escape this dir baseDir :
  (forall name sz,
     shouldExclude (options this)
       (Path.relative baseDir (Path.join dir name)) = false ->
     In (JsString.toLowerCase (Path.extname name))
        (extensions (options this)) ->
     minSize (options this) <= sz ->
     let at_read :=
       report_progress (incr_processedFiles (incr_totalFiles this)) in
     let this' :=
       log_if (verbose (options this)) at_read
              (ErrReading (Path.join dir name)) in
     visit md5 (File name (Some sz) None) this dir baseDir =
       (this', Normal tt) /\
     filesByHash this' = filesByHash this /\
     forall rest,
       scanEntries (visit md5) dir baseDir
         (File name (Some sz) None :: rest) this =
       scanEntries (visit md5) dir baseDir rest this') /\
  (forall name,
     shouldExclude (options this)
       (Path.relative baseDir (Path.join dir name)) = false ->
     let this' :=
       log_if (verbose (options this)) this
              (ErrScanning (Path.join dir name)) in
     visit md5 (Directory name None) this dir baseDir = (this', Normal tt) /\
     filesByHash this' = filesByHash this /\
     totalFiles this' = totalFiles this /\
     processedFiles this' = processedFiles this /\
     forall rest,
       scanEntries (visit md5) dir baseDir (Directory name None :: rest) this =
       scanEntries (visit md5) dir baseDir rest this') /\
  (forall that directory base listing,
     exists that',
       scanDirectory md5 that directory base listing = (that', Normal tt)) /\
  (forall o directory listing out,
     exists final r, scan md5 o directory listing out = (final, Normal r)).
Proof.
  split; [|split; [|split]].
  - intros name sz Hex Hext Hsz.
    assert (Hge : (sz >=? minSize (options this)) = true)
      by (apply Z.geb_le; lia).
    assert (Hopt : options (report_progress
                     (incr_processedFiles (incr_totalFiles this))) =
                   options this).
    { unfold report_progress, log_if. now destruct (andb _ _). }
    assert (Hv : visit md5 (File name (Some sz) None) this dir baseDir =
                 (log_if (verbose (options this))
                    (report_progress
                       (incr_processedFiles (incr_totalFiles this)))
                    (ErrReading (Path.join dir name)), Normal tt)).
    { simpl. rewrite Hex, (hasValidExtension_In _ _ Hext), Hge.
      unfold processFile, getFileHash. now rewrite Hopt. }
    cbv zeta. split; [exact Hv|]. split.
    + unfold report_progress, log_if.
      destruct (verbose (options this)); now destruct (andb _ _).
    + intros rest. cbn [scanEntries]. now rewrite Hv.
  - intros name Hex.
    assert (Hd : visit md5 (Directory name None) this dir baseDir =
                 (log_if (verbose (options this)) this
                    (ErrScanning (Path.join dir name)), Normal tt)).
    { simpl. now rewrite Hex. }
    cbv zeta. split; [exact Hd|].
    repeat split; try (unfold log_if; now destruct (verbose (options this))).
    intros rest. cbn [scanEntries]. now rewrite Hd.
  - intros. apply scanDirectory_returns.
  - intros. apply scan_returns.
Qed.

End Failures.

(** ** The order of the report (C8) *)

Section ReportOrder.

Variable md5 : list byte -> string.

Lemma StronglySorted_before {A : Type} (R : A -> A -> Prop) x y l :
  StronglySorted R l -> before x y l -> R x y.
Proof.
  induction 1 as [|a l Hs IH Ha]; simpl; [intros []|].
  intros [[<- Hy]|H]; [|now apply IH].
  rewrite Forall_forall in Ha. now apply Ha.
Qed.

(** C8. The duplicate groups of the report are in descending order of
    [wastedBytes]; of two groups with the same [wastedBytes], the one that
    comes first in the report is the one whose first file was hashed first
    in the walk. *)
Theorem groups_sorted_by_wasted_bytes o directory listing out this r :
  scan md5 o directory listing out = (this, Normal r) ->
  StronglySorted wasted_ge (duplicateGroups r) /\
  forall g1 g2,
    before g1 g2 (duplicateGroups r) ->
    wastedBytes g1 >= wastedBytes g2 /\
    (wastedBytes g1 = wastedBytes g2 ->
     first_before (hash g1) (hash g2)
       (discovery md5 (scan_options o) directory listing)).
Proof.
  intros Hscan.
  destruct (scan_inv md5 o directory listing out this r Hscan)
    as (_ & Hidx & Hgroups & _).
  assert (Hs : StronglySorted wasted_ge (duplicateGroups r))
    by (rewrite Hgroups; apply Array_sort_sorted).
  split; [exact Hs|].
  intros g1 g2 Hb. split.
  - exact (StronglySorted_before _ _ _ _ Hs Hb).
  - intros Heq. rewrite Hgroups in Hb.
    apply Array_sort_stable in Hb; [|exact Heq].
    apply groups_of_before in Hb. rewrite Hidx in Hb.
    now apply keys_first_before in Hb.
Qed.

End ReportOrder.

(** ** Running the scan twice (C9) *)

Section Twice.

Variable md5 : list byte -> string.










End Twice.

(** ** The default of [minSize] (C10) *)

Section MinSizeDefault.

Lemma or_default_nonzero v d : d <> 0 -> JsNumber.or_default v d <> 0.
Proof.
  intros Hd. destruct v as [[|z]|]; simpl; try exact Hd.
  destruct (Z.eqb_spec z 0); assumption.
Qed.

Lemma or_default_falsy v d :
  JsNumber.falsy v = true -> JsNumber.or_default v d = d.
Proof.
  destruct v as [[|z]|]; simpl; try reflexivity. now intros ->.
Qed.

Lemma parse_arg_min_size o arg :
  arg_key arg = Some "min-size" ->
  raw_minSize (parse_arg o arg) =
  Some (JsNumber.Num
          (JsNumber.or_default (Some (JsNumber.parseInt (arg_value arg))) 100)).
Proof.
  unfold arg_key, parse_arg, arg_value.
  destruct (JsString.startsWith arg "--"); [|discriminate].
  intros [= ->]. reflexivity.
Qed.

Lemma parse_arg_other o arg :
  arg_key arg <> Some "min-size" ->
  raw_minSize (parse_arg o arg) = raw_minSize o.
Proof.
  unfold arg_key, parse_arg.
  destruct (JsString.startsWith arg "--"); [|reflexivity].
  intros Hk. cbv zeta.
  destruct (String.eqb_spec (hd "" (arg_parts arg)) "min-size") as [E|_];
    [now rewrite E in Hk|].
  repeat match goal with
         | |- context [if ?b then _ else _] => destruct b
         end; reflexivity.
Qed.

Lemma fold_parse_arg_other post : forall o,
  Forall (fun a => arg_key a <> Some "min-size") post ->
  raw_minSize (fold_left parse_arg post o) = raw_minSize o.
Proof.
  induction post as [|a post IH]; intros o Hall; simpl; [reflexivity|].
  inversion Hall as [|? ? Ha Hpost]; subst.
  now rewrite IH, parse_arg_other.
Qed.

Lemma main_options_minSize args :
  raw_minSize (main_options args) =
  raw_minSize (fold_left parse_arg args no_options).
Proof.
  unfold main_options. now destruct (raw_exclude _).
Qed.

(** C10. The constructor replaces a falsy [minSize] (absent, [NaN] or 0)
    by 100, so [minSize] is never 0. On the command line, when the last
    argument with the key [min-size] has a value [parseInt] turns into
    [NaN] or 0, the scanner runs with [minSize] 100, and no file of fewer
    than 100 bytes gets a record in [filesByHash]; the same when no argument
    has the key [min-size]. *)
Theorem falsy_minSize_is_default pre arg post :
  arg_key arg = Some "min-size" ->
  JsNumber.falsy (Some (JsNumber.parseInt (arg_value arg))) = true ->
  Forall (fun a => arg_key a <> Some "min-size") post ->
  (forall o out,
     JsNumber.falsy (raw_minSize o) = true ->
     minSize (options (new_AssetAudit o out)) = 100) /\
  (forall o out, minSize (options (new_AssetAudit o out)) <> 0) /\
  (forall args,
     Forall (fun a => arg_key a <> Some "min-size") args ->
     minSize (scan_options (main_options args)) = 100) /\
  minSize (scan_options (main_options (pre ++ arg :: post))) = 100 /\
  forall md5 directory listing out this r,
    scan md5 (main_options (pre ++ arg :: post)) directory listing out =
      (this, Normal r) ->
    forall h fs f,
      In (h, fs) (filesByHash this) -> In f fs -> 100 <= size f.
Proof.
  intros Hkey Hfalsy Hpost.
  assert (Hmin : minSize (scan_options (main_options (pre ++ arg :: post))) =
                 100).
  { unfold scan_options. cbn [new_AssetAudit options minSize].
    rewrite main_options_minSize, fold_left_app. cbn [fold_left].
    rewrite (fold_parse_arg_other post _ Hpost),
      (parse_arg_min_size _ arg Hkey), (or_default_falsy _ 100 Hfalsy).
    reflexivity. }
  repeat split.
  - intros o out Ho. cbn [new_AssetAudit options minSize].
    now apply or_default_falsy.
  - intros o out. cbn [new_AssetAudit options minSize].
    now apply or_default_nonzero.
  - intros args Hargs. unfold scan_options.
    cbn [new_AssetAudit options minSize].
    now rewrite main_options_minSize, (fold_parse_arg_other args _ Hargs).
  - exact Hmin.
  - intros md5 directory listing out this r Hscan h fs f Hkv Hf.
    rewrite <- Hmin.
    exact (records_minSize md5 _ _ _ _ _ _ Hscan h fs f Hkv Hf).
Qed.

End MinSizeDefault.

(** ** The properties on the sample run *)

Section Samples.

Lemma tag_digest_injective c1 c2 : tag_digest c1 = tag_digest c2 -> c1 = c2.
Proof.
  unfold tag_digest. intros [= H].
  rewrite <- (list_byte_of_string_of_list_byte c1), H.
  apply list_byte_of_string_of_list_byte.
Qed.

Lemma tag_digest_nonempty content : tag_digest content <> "".
Proof. discriminate. Qed.

Lemma same_content_same_group_witness :
  exists g, In g (duplicateGroups sample_report) /\
            In "a.png" (files g) /\ In "b.PNG" (files g).
Proof.
  refine (proj1 (same_content_same_group tag_digest no_options "/r"
                   sample_listing [] (fst sample_scan) sample_report
                   _ _ _ "a.png" bytes_A "b.PNG" bytes_A _ _ _) eq_refl).
  - evaluated.
  - intros rel1 c1 rel2 c2 _ _. apply tag_digest_injective.
  - distinct_strings.
  - sample_file "/r/a.png" 120.
  - sample_file "/r/b.PNG" 120.
  - discriminate.
Defined.

Lemma wasted_bytes_of_groups_witness :
  totalWastedBytes (stats sample_report) =
  sum_wasted (duplicateGroups sample_report).
Proof.
  refine (proj2 (wasted_bytes_of_groups tag_digest no_options "/r"
                   sample_listing [] (fst sample_scan) sample_report _)).
  evaluated.
Defined.

Lemma excluded_never_visited_witness :
  visit tag_digest
    (Directory "node_modules" (Some [File "dep.png" (Some 120) (Some bytes_A)]))
    (new_AssetAudit no_options []) "/r" "/r" =
  (new_AssetAudit no_options [], Normal tt).
Proof.
  refine (proj1 (excluded_never_visited tag_digest
                   (new_AssetAudit no_options []) "/r" "/r"
                   (Directory "node_modules"
                      (Some [File "dep.png" (Some 120) (Some bytes_A)]))
                   "node_modules" "" "" _ _)).
  - simpl. tauto.
  - reflexivity.
Defined.


(** C5 fails as it is written: a 50-byte image alone in the root, with the
    default [minSize] of 100, is counted in [totalFilesScanned]. *)
Lemma small_file_counted_counterexample :
  minSize (scan_options no_options) = 100 /\
  snd (scan tag_digest no_options "/r" tiny_listing []) =
  Normal {| stats := {| totalFilesScanned := 1;
                        totalFilesProcessed := 0;
                        uniqueFiles := 0;
                        duplicateGroupCount := 0;
                        totalDuplicates := 0;
                        totalWastedBytes := 0 |};
            duplicateGroups := [] |}.
Proof. split; reflexivity. Qed.

Lemma small_file_counted_as_scanned_witness :
  totalFilesScanned (stats sample_report) =
  totalFilesProcessed (stats sample_report) + 2 + 0.
Proof.
  refine (proj1 (small_file_counted_as_scanned tag_digest no_options "/r"
                   sample_listing [] (fst sample_scan) sample_report _)).
  evaluated.
Defined.

(** C6 fails as it is written: an image that cannot be read is counted in
    [totalFilesProcessed], and [filesByHash] holds no record. *)
Lemma processed_not_hashed_counterexample :
  totalFilesProcessed_of (snd (scan tag_digest no_options "/r" unread_listing []))
    = Some 1 /\
  record_count
    (filesByHash (fst (scan tag_digest no_options "/r" unread_listing []))) = 0.
Proof. split; reflexivity. Qed.

Lemma processed_counts_attempts_witness :
  totalFilesProcessed (stats sample_report) =
  record_count (filesByHash (fst sample_scan)) + 1.
Proof.
  refine (processed_counts_attempts tag_digest no_options "/r" sample_listing
            [] (fst sample_scan) sample_report tag_digest_nonempty _).
  evaluated.
Defined.

Lemma io_failures_do_not_escape_witness :
  visit tag_digest (File "unread.png" (Some 500) None)
    (new_AssetAudit no_options []) "/r" "/r" =
  (report_progress
     (incr_processedFiles (incr_totalFiles (new_AssetAudit no_options []))),
   Normal tt) /\
  visit tag_digest (Directory "locked" None)
    (new_AssetAudit verbose_options []) "/r" "/r" =
  (log (new_AssetAudit verbose_options []) (ErrScanning "/r/locked"),
   Normal tt).
Proof.
  split.
  - refine (proj1 (proj1 (io_failures_do_not_escape tag_digest
                            (new_AssetAudit no_options []) "/r" "/r")
                     "unread.png" 500 _ _ _)).
    + reflexivity.
    + vm_compute. tauto.
    + vm_compute. discriminate.
  - refine (proj1 (proj1 (proj2 (io_failures_do_not_escape tag_digest
                                   (new_AssetAudit verbose_options [])
                                   "/r" "/r"))
                     "locked" _)).
    reflexivity.
Defined.

Lemma groups_sorted_by_wasted_bytes_witness :
  StronglySorted wasted_ge (duplicateGroups sample_report).
Proof.
  refine (proj1 (groups_sorted_by_wasted_bytes tag_digest no_options "/r"
                   sample_listing [] (fst sample_scan) sample_report _)).
  evaluated.
Defined.


Lemma falsy_minSize_is_default_witness :
  minSize (scan_options (main_options (["/r"] ++ "--min-size=0" :: ["--json"])))
  = 100.
Proof.
  refine (proj1 (proj2 (proj2 (proj2
            (falsy_minSize_is_default ["/r"] "--min-size=0" ["--json"]
               _ _ _))))).
  - reflexivity.
  - reflexivity.
  - repeat constructor. discriminate.
Defined.

(** The counters and the buckets belong to the object: a second call of
    [analyze] on the same object goes on from where the first one ended. *)
Example analyze_again_on_the_same_object :
  totalFilesProcessed_of
    (snd (analyze tag_digest (new_AssetAudit no_options []) "/r"
            unread_listing)) = Some 1 /\
  totalFilesProcessed_of
    (snd (analyze tag_digest
            (fst (analyze tag_digest (new_AssetAudit no_options []) "/r"
                    unread_listing))
            "/r" unread_listing)) = Some 2.
Proof. split; reflexivity. Qed.

(** A value that is not a number, and an argument without a value, give
    the default as well; a negative value is kept. *)
Example min_size_not_a_number :
  minSize (scan_options (main_options ["/r"; "--min-size=abc"])) = 100 /\
  minSize (scan_options (main_options ["/r"; "--min-size"])) = 100 /\
  minSize (scan_options (main_options ["/r"; "--min-size=0.5"])) = 100 /\
  minSize (scan_options (main_options ["/r"; "--min-size=-1"])) = -1 /\
  minSize (scan_options (main_options ["/r"; "--min-size=250"])) = 250.
Proof. repeat split; reflexivity. Qed.

End Samples.

(** * Further properties of the script *)

(** ** [shouldExclude] *)

Section ExcludePatterns.

Lemma append_assoc (a b c : string) :
  ((a ++ b) ++ c)%string = (a ++ b ++ c)%string.
Proof.
  induction a as [|x a IH]; simpl; [reflexivity|]. now rewrite IH.
Qed.

Lemma includes_inner s x p y :
  JsString.includes s (x ++ p ++ y) = true -> JsString.includes s p = true.
Proof.
  intros H. destruct (includes_split _ _ H) as (a & b & ->).
  replace (a ++ (x ++ p ++ y) ++ b)%string
    with ((a ++ x) ++ p ++ (y ++ b))%string
    by (now rewrite !append_assoc).
  apply includes_substring.
Qed.

(** The test bounded by separators adds nothing to the plain test. *)
Lemma shouldExclude_plain ops filePath :
  shouldExclude ops filePath =
  existsb (fun pattern => JsString.includes filePath pattern)
          (excludePatterns ops).
Proof.
  unfold shouldExclude.
  induction (excludePatterns ops) as [|pattern l IH];
    cbn [existsb]; [reflexivity|].
  rewrite IH. f_equal.
  destruct (JsString.includes filePath pattern) eqn:E1; [reflexivity|].
  destruct (JsString.includes filePath (Path.sep ++ pattern ++ Path.sep))
    eqn:E2; [|reflexivity].
  apply includes_inner in E2. congruence.
Qed.

(** X1. [shouldExclude] accepts a path exactly when some exclude pattern
    occurs in it as a substring: the second test of the source, the pattern
    between two separators, never decides. A path that contains an excluded
    path is excluded too, so the name of a file that merely contains a
    pattern is enough to exclude it. *)
Theorem shouldExclude_iff_substring ops filePath :
  (shouldExclude ops filePath = true <->
   exists pattern a b,
     In pattern (excludePatterns ops) /\
     filePath = (a ++ pattern ++ b)%string) /\
  (shouldExclude ops filePath = true ->
   forall a b, shouldExclude ops (a ++ filePath ++ b) = true).
Proof.
  assert (Hiff : forall p,
             shouldExclude ops p = true <->
             exists pattern a b,
               In pattern (excludePatterns ops) /\
               p = (a ++ pattern ++ b)%string).
  { intros p. rewrite shouldExclude_plain, existsb_exists. split.
    - intros (pattern & Hin & Hinc).
      destruct (includes_split _ _ Hinc) as (a & b & ->).
      now exists pattern, a, b.
    - intros (pattern & a & b & Hin & ->).
      exists pattern. split; [exact Hin|apply includes_substring]. }
  split; [apply Hiff|].
  intros H a b. apply Hiff in H. destruct H as (pattern & a' & b' & Hin & ->).
  apply Hiff. exists pattern, (a ++ a')%string, (b' ++ b)%string.
  split; [exact Hin|]. now rewrite !append_assoc.
Qed.

End ExcludePatterns.

(** ** The files the walk sees *)

Section SeenFiles.

Variable md5 : list byte -> string.

Lemma walkEntries_seen_in_tree ops entries :
  Forall (fun e => forall dir baseDir ev,
            In ev (fst (walk ops e dir baseDir)) ->
            seen_in_tree ops baseDir ev) entries ->
  forall dir baseDir ev,
    In ev (fst (walkEntries (walk ops) dir baseDir entries)) ->
    seen_in_tree ops baseDir ev.
Proof.
  induction 1 as [|e rest He _ IH]; intros dir baseDir ev; simpl;
    [intros []|].
  specialize (He dir baseDir ev).
  destruct (walk ops e dir baseDir) as [evs thrown]; simpl in He.
  destruct thrown; simpl; [exact He|].
  specialize (IH dir baseDir ev).
  destruct (walkEntries (walk ops) dir baseDir rest) as [evs' thrown'].
  simpl in *. rewrite in_app_iff. intros [H|H]; auto.
Qed.

Lemma walk_seen_in_tree ops : forall e dir baseDir ev,
  In ev (fst (walk ops e dir baseDir)) -> seen_in_tree ops baseDir ev.
Proof.
  induction e as [name stat read | name | name listing IH] using entry_ind;
    intros dir baseDir ev; simpl;
    destruct (shouldExclude ops _) eqn:Hex; simpl; try (intros []).
  - destruct (hasValidExtension ops name); simpl; [|intros []].
    intros [<-|[]]. simpl. split; [exact Hex|reflexivity].
  - unfold walkDirectory_body.
    destruct listing as [entries|]; [|intros [<-|[]]; exact I].
    assert (Hsub := walkEntries_seen_in_tree ops entries (IH entries eq_refl)
                      (Path.join dir name)
                      (base_or (Some baseDir) (Path.join dir name)) ev).
    destruct (walkEntries _ _ _ entries) as [evs thrown]. simpl in Hsub.
    assert (Hbase : seen_in_tree ops
                      (base_or (Some baseDir) (Path.join dir name)) ev ->
                    seen_in_tree ops baseDir ev).
    { unfold seen_in_tree, base_or. destruct ev; [|auto].
      destruct (JsString.truthy baseDir) eqn:Hb.
      - intros [H1 H2]. split; [exact H1|]. intros _. now apply H2.
      - intros [H _]. split; [exact H|]. intros Hc. discriminate Hc. }
    destruct thrown.
    + rewrite in_app_iff. intros [H|[<-|[]]]; [auto|exact I].
    + auto.
Qed.

Lemma walkDirectory_seen_in_tree ops directory listing ev :
  In ev (walkDirectory ops directory None listing) ->
  seen_in_tree ops directory ev.
Proof.
  unfold walkDirectory, walkDirectory_body. simpl base_or.
  destruct listing as [entries|]; [|intros [<-|[]]; exact I].
  assert (Hsub := walkEntries_seen_in_tree ops entries
                    (proj2 (Forall_forall _ _)
                       (fun e _ => walk_seen_in_tree ops e))
                    directory directory ev).
  destruct (walkEntries _ _ _ entries) as [evs thrown]. simpl in Hsub.
  destruct thrown; [|exact Hsub].
  rewrite in_app_iff. intros [H|[<-|[]]]; [auto|exact I].
Qed.

(** X2. No record of [filesByHash], and so no file listed in a duplicate
    group, has a relative path that [shouldExclude] accepts; and when the
    scanned directory is not the empty string, the relative path of a record
    is [path.relative] of the directory and the path of the record. *)
Theorem records_not_excluded o directory listing out this r :
  scan md5 o directory listing out = (this, Normal r) ->
  (forall h fs f,
     In (h, fs) (filesByHash this) -> In f fs ->
     shouldExclude (scan_options o) (relativePath f) = false /\
     (directory <> "" ->
      relativePath f = Path.relative directory (path f))) /\
  (forall g file,
     In g (duplicateGroups r) -> In file (files g) ->
     shouldExclude (scan_options o) file = false).
Proof.
  intros Hscan.
  destruct (scan_inv md5 o directory listing out this r Hscan)
    as (_ & Hidx & Hgroups & _).
  assert (Hrec : forall h fs f,
             In (h, fs) (filesByHash this) -> In f fs ->
             shouldExclude (scan_options o) (relativePath f) = false /\
             (directory <> "" ->
              relativePath f = Path.relative directory (path f))).
  { intros h fs f Hkv Hf.
    assert (Hb : bucket (filesByHash this) h = fs).
    { apply In_bucket; [|exact Hkv]. rewrite Hidx. apply keys_NoDup. }
    rewrite <- Hb, Hidx in Hf. apply bucket_from_inserts in Hf.
    apply inserts_In in Hf. destruct Hf as (ev & Hev & Hins).
    apply walkDirectory_seen_in_tree in Hev.
    destruct ev as [fullPath rel [sz|] [content|] | dir]; try discriminate.
    simpl in Hins.
    destruct (_ && _); [|discriminate]. injection Hins as _ <-.
    destruct Hev as [Hex Hrel]. cbn [relativePath path].
    split; [exact Hex|]. intros Hd. apply Hrel.
    unfold JsString.truthy. apply String.eqb_neq in Hd. now rewrite Hd. }
  split; [exact Hrec|].
  intros g file Hg Hfile. rewrite Hgroups in Hg.
  apply (Permutation_in g (Permutation_sym (Array_sort_perm by_wasted _)))
    in Hg.
  apply groups_of_In in Hg. destruct Hg as ([h fs] & Hkv & Hg).
  destruct (group_of_In g h fs Hg) as (_ & f0 & rest & _ & ->).
  cbn [files] in Hfile. apply in_map_iff in Hfile.
  destruct Hfile as (f & <- & Hf).
  exact (proj1 (Hrec h fs f Hkv Hf)).
Qed.

End SeenFiles.

(** ** The buckets and the statistics *)

Section Buckets.

Variable md5 : list byte -> string.

Lemma index_add_nonempty m i :
  Forall (fun kv => snd kv <> []) m ->
  Forall (fun kv => snd kv <> []) (index_add m i).
Proof.
  destruct i as [h r].
  induction 1 as [|[k v] m Hkv Hm IH].
  - rewrite index_add_nil. constructor; [discriminate|constructor].
  - rewrite index_add_cons. destruct (String.eqb k h).
    + constructor; [|exact Hm]. simpl. now destruct v.
    + constructor; assumption.
Qed.

Lemma fold_index_add_nonempty ins : forall m,
  Forall (fun kv => snd kv <> []) m ->
  Forall (fun kv => snd kv <> []) (fold_left index_add ins m).
Proof.
  induction ins as [|i ins IH]; intros m Hm; simpl; [exact Hm|].
  now apply IH, index_add_nonempty.
Qed.

Lemma buckets_group_by_digest_lemma o directory listing out this r :
  scan md5 o directory listing out = (this, Normal r) ->
  let ins := inserts md5 (scan_options o) (scan_events o directory listing) in
  NoDup (map fst (filesByHash this)) /\
  (forall h fs,
     In (h, fs) (filesByHash this) ->
     fs <> [] /\ fs = map snd (with_digest h ins)).
Proof.
  intros Hscan ins.
  destruct (scan_inv md5 o directory listing out this r Hscan)
    as (_ & Hidx & _).
  fold ins in Hidx.
  assert (Hnd : NoDup (map fst (filesByHash this)))
    by (rewrite Hidx; apply keys_NoDup).
  split; [exact Hnd|].
  intros h fs Hkv. split.
  - assert (Hne := fold_index_add_nonempty ins [] (Forall_nil _)).
    rewrite <- Hidx, Forall_forall in Hne. exact (Hne (h, fs) Hkv).
  - rewrite <- (In_bucket _ _ _ Hnd Hkv), Hidx.
    apply bucket_fold_index_add.
Qed.

(** X3. The keys of [filesByHash] are pairwise different, no bucket is
    empty, and the bucket of a key holds exactly the records of the hashed
    files with that digest, in the order in which the walk met them; a
    digest that is not a key has no hashed file. *)
Theorem buckets_group_by_digest o directory listing out this r :
  scan md5 o directory listing out = (this, Normal r) ->
  let ins := inserts md5 (scan_options o) (scan_events o directory listing) in
  NoDup (map fst (filesByHash this)) /\
  (forall h fs,
     In (h, fs) (filesByHash this) ->
     fs <> [] /\ fs = map snd (with_digest h ins)) /\
  (forall h,
     JsMap.get (filesByHash this) h = None <-> with_digest h ins = []).
Proof.
  intros Hscan ins.
  destruct (buckets_group_by_digest_lemma o directory listing out this r Hscan)
    as (Hnd & Hbucket).
  split; [exact Hnd|]. split; [exact Hbucket|].
  intros h.
  destruct (scan_inv md5 o directory listing out this r Hscan)
    as (_ & Hidx & _).
  fold ins in Hidx.
  assert (Hb : bucket (filesByHash this) h = map snd (with_digest h ins)).
  { rewrite Hidx. apply bucket_fold_index_add. }
  unfold bucket in Hb.
  destruct (JsMap.get (filesByHash this) h) as [fs|] eqn:E.
  - split; [discriminate|]. intros Hnil. exfalso.
    destruct (Hbucket h fs (get_In _ _ _ E)) as [Hne _].
    apply Hne. rewrite Hb, Hnil. reflexivity.
  - split; [|reflexivity]. intros _.
    destruct (with_digest h ins); [reflexivity|discriminate].
Qed.

Lemma fold_count_duplicates gs : forall a,
  fold_left (fun acc g => acc + count g - 1) gs a = a + sum_duplicates gs.
Proof.
  induction gs as [|g gs IH]; intros a; simpl; [lia|]. rewrite IH. lia.
Qed.

Lemma sum_duplicates_perm l1 l2 :
  Permutation l1 l2 -> sum_duplicates l1 = sum_duplicates l2.
Proof. induction 1; simpl; lia. Qed.

Lemma sum_duplicates_app l1 l2 :
  sum_duplicates (l1 ++ l2) = sum_duplicates l1 + sum_duplicates l2.
Proof. induction l1 as [|g l1 IH]; simpl; lia. Qed.

Lemma group_of_cases h fs :
  (group_of (h, fs) = [] /\ (List.length fs <= 1)%nat) \/
  (exists g, group_of (h, fs) = [g] /\ hash g = h /\
             count g = Z.of_nat (List.length fs) /\
             (2 <= List.length fs)%nat).
Proof.
  unfold group_of, collect.
  destruct (Z.gtb_spec (Z.of_nat (List.length fs)) 1) as [Hgt|Hle].
  - right. destruct fs as [|f0 rest]; [simpl in Hgt; lia|].
    eexists. split; [reflexivity|]. cbn [hash count]. repeat split. lia.
  - left. split; [reflexivity|lia].
Qed.

Lemma record_count_groups m :
  Forall (fun kv => snd kv <> []) m ->
  record_count m =
  Z.of_nat (List.length m) + sum_duplicates (groups_of m) /\
  Z.of_nat (List.length (groups_of m)) <= sum_duplicates (groups_of m) /\
  (List.length (groups_of m) <= List.length m)%nat.
Proof.
  induction 1 as [|[h fs] m Hkv Hm (IH1 & IH2 & IH3)].
  - simpl. repeat split; lia.
  - unfold groups_of in *. cbn [flat_map record_count fold_right snd].
    fold (record_count m). rewrite sum_duplicates_app, length_app.
    simpl in Hkv.
    assert (Hlen : (1 <= List.length fs)%nat)
      by (destruct fs; [now contradiction Hkv|simpl; lia]).
    destruct (group_of_cases h fs) as [[-> Hle]|(g & -> & _ & Hc & Hge)];
      cbn [sum_duplicates fold_right List.length]; repeat split; lia.
Qed.

Lemma inserts_le_attempted ops evs :
  (List.length (inserts md5 ops evs) <=
   List.length (filter (attempted ops) evs))%nat.
Proof.
  induction evs as [|ev evs IH]; simpl; [lia|].
  destruct ev as [fullPath rel [sz|] [content|] | dir]; simpl; try exact IH.
  - destruct (sz >=? minSize ops); simpl; [|exact IH].
    destruct (JsString.truthy (md5 content)); simpl; lia.
  - destruct (sz >=? minSize ops); simpl; lia.
Qed.

Lemma stats_accounting o directory listing out this r :
  scan md5 o directory listing out = (this, Normal r) ->
  record_count (filesByHash this) =
    uniqueFiles (stats r) + totalDuplicates (stats r) /\
  duplicateGroupCount (stats r) =
    Z.of_nat (List.length (duplicateGroups r)) /\
  totalDuplicates (stats r) = sum_duplicates (duplicateGroups r).
Proof.
  intros Hscan.
  destruct (scan_inv md5 o directory listing out this r Hscan)
    as (_ & Hidx & Hgroups & _).
  assert (Hne : Forall (fun kv => snd kv <> []) (filesByHash this))
    by (rewrite Hidx; apply fold_index_add_nonempty; constructor).
  destruct (record_count_groups _ Hne) as (Hrc & _).
  assert (Hperm := Array_sort_perm by_wasted (groups_of (filesByHash this))).
  rewrite <- Hgroups in Hperm.
  assert (Hsum := sum_duplicates_perm _ _ Hperm).
  unfold scan in Hscan. rewrite analyze_eq in Hscan. cbv zeta in Hscan.
  injection Hscan as Hthis Hr.
  assert (Hu : uniqueFiles (stats r) =
               Z.of_nat (List.length (filesByHash this)))
    by (rewrite <- Hr, <- Hthis; reflexivity).
  assert (Hc : duplicateGroupCount (stats r) =
               Z.of_nat (List.length (duplicateGroups r)))
    by (rewrite <- Hr; reflexivity).
  assert (Hd : totalDuplicates (stats r) = sum_duplicates (duplicateGroups r)).
  { rewrite <- Hr. cbn [stats totalDuplicates duplicateGroups].
    now rewrite fold_count_duplicates. }
  repeat split; try assumption. lia.
Qed.

(** X4. The statistics of a report add up: the records of [filesByHash]
    are the unique files plus the duplicates; there are at most as many
    duplicate groups as duplicates and as unique files; and the records are
    at most the processed files, which are at most the scanned files. *)
Theorem stats_add_up o directory listing out this r :
  scan md5 o directory listing out = (this, Normal r) ->
  record_count (filesByHash this) =
    uniqueFiles (stats r) + totalDuplicates (stats r) /\
  duplicateGroupCount (stats r) =
    Z.of_nat (List.length (duplicateGroups r)) /\
  totalDuplicates (stats r) = sum_duplicates (duplicateGroups r) /\
  0 <= duplicateGroupCount (stats r) <= totalDuplicates (stats r) /\
  duplicateGroupCount (stats r) <= uniqueFiles (stats r) /\
  record_count (filesByHash this) <= totalFilesProcessed (stats r) /\
  totalFilesProcessed (stats r) <= totalFilesScanned (stats r).
Proof.
  intros Hscan.
  destruct (stats_accounting o directory listing out this r Hscan)
    as (Hrc & Hc & Hd).
  destruct (scan_inv md5 o directory listing out this r Hscan)
    as (_ & Hidx & Hgroups & Hseen & Hproc & _).
  assert (Hne : Forall (fun kv => snd kv <> []) (filesByHash this))
    by (rewrite Hidx; apply fold_index_add_nonempty; constructor).
  destruct (record_count_groups _ Hne) as (Hrc' & Hgd & Hgu).
  assert (Hperm := Array_sort_perm by_wasted (groups_of (filesByHash this))).
  rewrite <- Hgroups in Hperm.
  assert (Hlen := Permutation_length Hperm).
  assert (Hsum := sum_duplicates_perm _ _ Hperm).
  assert (Hrec : record_count (filesByHash this) =
                 Z.of_nat (List.length
                   (inserts md5 (scan_options o)
                      (scan_events o directory listing)))).
  { rewrite Hidx, record_count_fold. simpl. lia. }
  assert (Hle := inserts_le_attempted (scan_options o)
                   (scan_events o directory listing)).
  assert (Hsplit := seen_split (scan_options o)
                      (scan_events o directory listing)).
  repeat split; try assumption; lia.
Qed.

End Buckets.

(** ** The duplicate groups and the digests *)

Section GroupsAndDigests.

Variable md5 : list byte -> string.

Lemma groups_of_hash_In m h :
  In h (map hash (groups_of m)) -> In h (map fst m).
Proof.
  intros Hin. apply in_map_iff in Hin. destruct Hin as (g & <- & Hg).
  apply groups_of_In in Hg. destruct Hg as (kv & Hkv & Hg).
  rewrite (group_of_hash g kv Hg). now apply in_map.
Qed.

Lemma groups_of_hash_NoDup m :
  NoDup (map fst m) -> NoDup (map hash (groups_of m)).
Proof.
  induction m as [|[h fs] m IH]; simpl; [constructor|].
  intros Hnd. inversion Hnd as [|? ? Hh Hm]; subst.
  unfold groups_of in *. cbn [flat_map]. rewrite map_app.
  destruct (group_of_cases h fs) as [[-> _]|(g & -> & Hg & _)]; simpl.
  - now apply IH.
  - constructor; [|now apply IH].
    rewrite Hg. intros Hin. apply Hh. now apply groups_of_hash_In.
Qed.

Lemma flat_map_all_nil {A B : Type} (f : A -> list B) l :
  (forall x, In x l -> f x = []) -> flat_map f l = [].
Proof.
  induction l as [|x l IH]; intros H; simpl; [reflexivity|].
  rewrite (H x (or_introl eq_refl)). apply IH. intros y Hy. apply H. now right.
Qed.

Lemma count_occ_with_digest ins h :
  count_occ string_dec (map fst ins) h = List.length (with_digest h ins).
Proof.
  induction ins as [|[h0 f] ins IH]; simpl; [reflexivity|].
  destruct (string_dec h0 h) as [->|Hne].
  - rewrite String.eqb_refl. simpl. now rewrite IH.
  - apply String.eqb_neq in Hne. now rewrite Hne.
Qed.

(** X5. Every digest is reported at most once; every digest that two or
    more hashed files have is reported; and the group of a digest counts
    exactly the hashed files with that digest, lists their relative paths in
    the order of the walk, and takes its file size and extension from the
    first of them. *)
Theorem groups_are_the_repeated_digests o directory listing out this r :
  scan md5 o directory listing out = (this, Normal r) ->
  let ins := inserts md5 (scan_options o) (scan_events o directory listing) in
  NoDup (map hash (duplicateGroups r)) /\
  (forall h,
     (2 <= List.length (with_digest h ins))%nat ->
     exists g, In g (duplicateGroups r) /\ hash g = h) /\
  (forall g,
     In g (duplicateGroups r) ->
     count g = Z.of_nat (List.length (with_digest (hash g) ins)) /\
     files g = map (fun i => relativePath (snd i)) (with_digest (hash g) ins) /\
     exists i rest,
       with_digest (hash g) ins = i :: rest /\
       fileSize g = size (snd i) /\
       groupExtension g = extension (snd i)).
Proof.
  intros Hscan ins.
  destruct (buckets_group_by_digest_lemma md5 o directory listing out this r Hscan)
    as (Hnd & Hbucket).
  destruct (scan_inv md5 o directory listing out this r Hscan)
    as (_ & Hidx & Hgroups & _).
  fold ins in Hbucket, Hidx.
  assert (Hperm := Array_sort_perm by_wasted (groups_of (filesByHash this))).
  rewrite <- Hgroups in Hperm.
  split; [|split].
  - apply (Permutation_NoDup (Permutation_map hash Hperm)).
    now apply groups_of_hash_NoDup.
  - intros h Hlen.
    assert (Hb : bucket (filesByHash this) h = map snd (with_digest h ins)).
    { rewrite Hidx. apply bucket_fold_index_add. }
    assert (Hlen' : (2 <= List.length (bucket (filesByHash this) h))%nat)
      by (rewrite Hb, length_map; exact Hlen).
    destruct (group_of_big h _ Hlen') as (g & Hg & _).
    exists g. split.
    + apply (Permutation_in g Hperm), groups_of_In.
      eexists. split; [|exact Hg]. apply bucket_In.
      intros Hc. rewrite Hc in Hlen'. simpl in Hlen'. lia.
    + exact (group_of_hash g _ Hg).
  - intros g Hg.
    apply (Permutation_in g (Permutation_sym Hperm)), groups_of_In in Hg.
    destruct Hg as ([h fs] & Hkv & Hg).
    destruct (Hbucket h fs Hkv) as [_ Hfs].
    destruct (group_of_In g h fs Hg) as (_ & f0 & rest & Hcons & ->).
    cbn [hash count files fileSize groupExtension].
    rewrite Hfs, length_map, map_map. repeat split.
    rewrite Hfs in Hcons.
    destruct (with_digest h ins) as [|i rest']; [discriminate|].
    injection Hcons as <- _. now exists i, rest'.
Qed.

(** X6. The report has no duplicate group exactly when all the hashed
    files have different digests; then nothing is wasted. *)
Theorem no_group_iff_digests_differ o directory listing out this r :
  scan md5 o directory listing out = (this, Normal r) ->
  let ins := inserts md5 (scan_options o) (scan_events o directory listing) in
  (duplicateGroups r = [] <-> NoDup (map fst ins)) /\
  (duplicateGroups r = [] ->
   totalWastedBytes (stats r) = 0 /\ totalDuplicates (stats r) = 0 /\
   uniqueFiles (stats r) = record_count (filesByHash this)).
Proof.
  intros Hscan ins.
  destruct (buckets_group_by_digest_lemma md5 o directory listing out this r Hscan)
    as (Hnd & Hbucket).
  destruct (scan_inv md5 o directory listing out this r Hscan)
    as (_ & Hidx & Hgroups & _ & _ & Hwasted).
  fold ins in Hbucket, Hidx.
  assert (Hperm := Array_sort_perm by_wasted (groups_of (filesByHash this))).
  rewrite <- Hgroups in Hperm.
  split.
  - split.
    + intros Hnil. rewrite Hnil in Hperm.
      apply Permutation_sym, Permutation_nil in Hperm.
      apply (NoDup_count_occ string_dec). intros h.
      rewrite count_occ_with_digest.
      destruct (with_digest h ins) as [|i [|j rest]] eqn:E; simpl; try lia.
      exfalso.
      assert (Hb : bucket (filesByHash this) h = map snd (with_digest h ins)).
      { rewrite Hidx. apply bucket_fold_index_add. }
      assert (Hlen : (2 <= List.length (bucket (filesByHash this) h))%nat)
        by (rewrite Hb, E; simpl; lia).
      destruct (group_of_big h _ Hlen) as (g & Hg & _).
      assert (Hin : In g (groups_of (filesByHash this))).
      { apply groups_of_In. eexists. split; [|exact Hg]. apply bucket_In.
        intros Hc. rewrite Hc in Hlen. simpl in Hlen. lia. }
      rewrite Hperm in Hin. destruct Hin.
    + intros Hdig.
      assert (Hnil : groups_of (filesByHash this) = []).
      { unfold groups_of.
        assert (Hall : forall kv, In kv (filesByHash this) ->
                                  group_of kv = []).
        { intros [h fs] Hkv. destruct (Hbucket h fs Hkv) as [_ Hfs].
          destruct (group_of_cases h fs) as [[E _]|(g & _ & _ & _ & Hge)];
            [exact E|].
          exfalso. rewrite Hfs, length_map, <- count_occ_with_digest in Hge.
          assert (Hle := proj1 (NoDup_count_occ string_dec _) Hdig h). lia. }
        now apply flat_map_all_nil. }
      rewrite Hnil in Hperm. now apply Permutation_nil in Hperm.
  - intros Hnil.
    destruct (stats_accounting md5 o directory listing out this r Hscan)
      as (Hrc & _ & Hd).
    rewrite Hnil in Hperm. apply Permutation_sym, Permutation_nil in Hperm.
    rewrite Hwasted, Hperm. rewrite Hnil in Hd. simpl in Hd.
    repeat split; try assumption; lia.
Qed.

End GroupsAndDigests.

(** ** Nothing to scan *)

Section NothingToScan.

Variable md5 : list byte -> string.

Lemma walk_all_excluded ops e dir baseDir :
  In "" (excludePatterns ops) -> walk ops e dir baseDir = ([], false).
Proof.
  intros Hin.
  assert (Hex : forall p, shouldExclude ops p = true).
  { intros p. unfold shouldExclude. apply existsb_exists.
    exists "". split; [exact Hin|].
    apply orb_true_iff. left. apply includes_prefix. now destruct p. }
  destruct e; simpl; now rewrite Hex.
Qed.

Lemma walkEntries_all_excluded ops dir baseDir entries :
  In "" (excludePatterns ops) ->
  walkEntries (walk ops) dir baseDir entries = ([], false).
Proof.
  intros Hin. induction entries as [|e rest IH]; simpl; [reflexivity|].
  now rewrite (walk_all_excluded ops e dir baseDir Hin), IH.
Qed.

(** X7. When the root is empty or cannot be listed, or when the empty
    string is among the exclude patterns (as [--exclude=] gives), the scan
    returns the report with all statistics zero and no group, and
    [filesByHash] stays empty. *)
Theorem nothing_to_scan o directory listing out this r :
  listing = None \/ listing = Some [] \/
  In "" (excludePatterns (scan_options o)) ->
  scan md5 o directory listing out = (this, Normal r) ->
  stats r = zero_stats /\ duplicateGroups r = [] /\ filesByHash this = [].
Proof.
  intros Hcase Hscan.
  assert (Hev : filter is_seen (scan_events o directory listing) = [] /\
                inserts md5 (scan_options o)
                  (scan_events o directory listing) = [] /\
                filter (attempted (scan_options o))
                  (scan_events o directory listing) = []).
  { unfold scan_events, walkDirectory, walkDirectory_body.
    destruct Hcase as [-> |[-> |Hin]]; try (repeat split; reflexivity).
    destruct listing as [entries|]; [|repeat split; reflexivity].
    rewrite (walkEntries_all_excluded _ _ _ entries Hin).
    repeat split; reflexivity. }
  destruct Hev as (Hseen & Hins & Hatt).
  destruct (scan_inv md5 o directory listing out this r Hscan)
    as (_ & Hidx & Hgroups & Hs & Hp & Hw).
  rewrite Hins in Hidx. simpl in Hidx.
  rewrite Hidx in Hgroups, Hw. simpl in Hgroups, Hw.
  rewrite Hseen in Hs. rewrite Hatt in Hp. simpl in Hs, Hp.
  unfold scan in Hscan. rewrite analyze_eq in Hscan. cbv zeta in Hscan.
  injection Hscan as Hthis Hr.
  repeat split; try assumption.
  rewrite <- Hr in Hs, Hp, Hw |- *. cbn [stats] in *.
  cbn [totalFilesScanned totalFilesProcessed totalWastedBytes] in Hs, Hp, Hw.
  rewrite Hthis in *. rewrite Hidx in *.
  unfold zero_stats. simpl. now rewrite Hs, Hp.
Qed.

End NothingToScan.

(** ** What the scan writes *)

Section Console.

Variable md5 : list byte -> string.

Lemma processFile_console this fullPath relativePath sz read :
  exists lines,
    console (fst (processFile md5 this fullPath relativePath sz read)) =
      console this ++ lines /\
    (verbose (options this) = false -> lines = []) /\
    filter is_error_line lines =
      (if verbose (options this) then
         match read with None => [ErrReading fullPath] | Some _ => [] end
       else []).
Proof.
  unfold processFile, report_progress, getFileHash, log_if, log; simpl.
  destruct ((processedFiles this + 1) mod 100 =? 0);
    destruct read as [content|]; simpl;
    try destruct (JsString.truthy (md5 content)); simpl;
    destruct (verbose (options this)) eqn:Hv; simpl; rewrite ?Hv; simpl;
    repeat rewrite <- app_assoc;
    eexists; (split; [try reflexivity; symmetry; apply app_nil_r|]);
    (split; [intros; try reflexivity; discriminate|reflexivity]).
Qed.

Lemma apply_event_console this ev :
  exists lines,
    console (apply_event md5 this ev) = console this ++ lines /\
    (verbose (options this) = false -> lines = []) /\
    filter is_error_line lines =
      (if verbose (options this) && failure (options this) ev
       then [error_line ev] else []).
Proof.
  destruct ev as [fullPath rel [sz|] read | dir]; simpl.
  - destruct (sz >=? minSize (options this)) eqn:Hsz.
    + destruct (processFile_console (incr_totalFiles this) fullPath rel sz read)
        as (lines & Hc & Hq & He).
      exists lines. split; [exact Hc|]. split; [exact Hq|].
      rewrite He. cbn [options incr_totalFiles].
      destruct (verbose (options this)), read; reflexivity.
    + exists []. rewrite app_nil_r.
      split; [reflexivity|]. split; [reflexivity|].
      destruct (verbose (options this)), read; reflexivity.
  - exists []. rewrite app_nil_r.
    split; [reflexivity|]. split; [reflexivity|].
    destruct (verbose (options this)), read; reflexivity.
  - unfold log_if, log. destruct (verbose (options this)); simpl.
    + eexists. split; [reflexivity|]. split; [discriminate|reflexivity].
    + exists []. rewrite app_nil_r. repeat split.
Qed.

Lemma fold_apply_console evs : forall this,
  exists lines,
    console (fold_left (apply_event md5) evs this) = console this ++ lines /\
    (verbose (options this) = false -> lines = []) /\
    filter is_error_line lines =
      (if verbose (options this)
       then map error_line (filter (failure (options this)) evs) else []).
Proof.
  induction evs as [|ev evs IH]; intros this; simpl.
  - exists []. rewrite app_nil_r. repeat split. now destruct (verbose _).
  - destruct (apply_event_console this ev) as (l1 & Hc1 & Hq1 & He1).
    destruct (IH (apply_event md5 this ev)) as (l2 & Hc2 & Hq2 & He2).
    rewrite apply_event_options in Hq2, He2.
    exists (l1 ++ l2). split; [|split].
    + now rewrite Hc2, Hc1, app_assoc.
    + intros Hv. now rewrite (Hq1 Hv), (Hq2 Hv).
    + rewrite filter_app, He1, He2.
      destruct (verbose (options this)); simpl; [|reflexivity].
      now destruct (failure (options this) ev).
Qed.

Lemma scan_console_shape o directory listing out this r :
  scan md5 o directory listing out = (this, Normal r) ->
  (verbose (scan_options o) = false ->
   console this = out ++ [LogScanning directory]) /\
  (verbose (scan_options o) = true ->
   exists body,
     console this =
       out ++ LogScanning directory :: body ++
       [LogProcessed (totalFilesProcessed (stats r))]).
Proof.
  unfold scan. rewrite analyze_eq. cbv zeta.
  set (this0 := log (new_AssetAudit o out) (LogScanning directory)).
  destruct (fold_apply_console
              (walkDirectory (options (new_AssetAudit o out)) directory None
                 listing) this0) as (body & Hc & Hq & _).
  set (this1 := fold_left _ _ this0) in *.
  assert (Ho : options this1 = scan_options o)
    by (unfold this1; now rewrite fold_apply_options).
  change (options this0) with (scan_options o) in Hq.
  change (console this0) with (out ++ [LogScanning directory]) in Hc.
  intros [= <- <-]. rewrite Ho. split.
  - intros Hv. rewrite Hv. simpl. rewrite Hc, (Hq Hv). apply app_nil_r.
  - intros Hv. rewrite Hv in *. exists body.
    unfold log_if, log. cbn [console stats totalFilesProcessed processedFiles].
    rewrite Hc, <- !app_assoc. reflexivity.
Qed.

(** X8. Without [verbose] a scan writes the line that names the directory
    and nothing else, whatever fails. With [verbose] it writes that line
    first and the number of processed files last, and between them one error
    line for each file that could not be read and each directory whose
    [catch] ran, in the order of the walk, naming the file or the
    directory. *)
Theorem scan_console_lines o directory listing out this r :
  scan md5 o directory listing out = (this, Normal r) ->
  (verbose (scan_options o) = false ->
   console this = out ++ [LogScanning directory]) /\
  (verbose (scan_options o) = true ->
   exists body,
     console this =
       out ++ LogScanning directory :: body ++
       [LogProcessed (totalFilesProcessed (stats r))] /\
     filter is_error_line body =
       map error_line
           (filter (failure (scan_options o))
                   (scan_events o directory listing))).
Proof.
  unfold scan. rewrite analyze_eq. cbv zeta.
  set (this0 := log (new_AssetAudit o out) (LogScanning directory)).
  destruct (fold_apply_console
              (walkDirectory (options (new_AssetAudit o out)) directory None
                 listing) this0) as (body & Hc & Hq & He).
  set (this1 := fold_left _ _ this0) in *.
  assert (Ho : options this1 = scan_options o)
    by (unfold this1; now rewrite fold_apply_options).
  change (options this0) with (scan_options o) in Hq, He.
  change (console this0) with (out ++ [LogScanning directory]) in Hc.
  intros [= <- <-]. rewrite Ho. split.
  - intros Hv. rewrite Hv. simpl. rewrite Hc, (Hq Hv). apply app_nil_r.
  - intros Hv. rewrite Hv in *. exists body. split; [|exact He].
    unfold log_if, log. cbn [console stats totalFilesProcessed processedFiles].
    rewrite Hc, <- !app_assoc. reflexivity.
Qed.

End Console.

(** ** The command line *)

Section CommandLine.

Lemma parse_arg_not_option o arg :
  arg_key arg = None -> parse_arg o arg = o.
Proof.
  unfold arg_key, parse_arg.
  now destruct (JsString.startsWith arg "--").
Qed.

Lemma parse_arg_key o arg k :
  arg_key arg = Some k ->
  parse_arg o arg =
  if String.eqb k "min-size" then
    mkRawOptions
      (Some (JsNumber.Num
               (JsNumber.or_default
                  (Some (JsNumber.parseInt (arg_value arg))) 100)))
      (raw_exclude o) (raw_verbose o) (raw_json o) (raw_extensions o)
  else if String.eqb k "exclude" then
    mkRawOptions (raw_minSize o)
      (Some (list_or_default (raw_exclude o) [] ++
             [match arg_value arg with Some v => v | None => "undefined" end]))
      (raw_verbose o) (raw_json o) (raw_extensions o)
  else if String.eqb k "json" then
    mkRawOptions (raw_minSize o) (raw_exclude o) (raw_verbose o) (Some true)
                 (raw_extensions o)
  else if String.eqb k "verbose" then
    mkRawOptions (raw_minSize o) (raw_exclude o) (Some true) (raw_json o)
                 (raw_extensions o)
  else o.
Proof.
  unfold arg_key, parse_arg, arg_value.
  destruct (JsString.startsWith arg "--"); [|discriminate].
  intros [= <-]. reflexivity.
Qed.

Lemma parse_arg_exclude o arg :
  raw_exclude (parse_arg o arg) =
  match exclude_values [arg] with
  | [] => raw_exclude o
  | vs => Some (list_or_default (raw_exclude o) [] ++ vs)
  end.
Proof.
  unfold exclude_values, has_key. simpl.
  destruct (arg_key arg) as [k|] eqn:Hk.
  - rewrite (parse_arg_key o arg k Hk).
    destruct (String.eqb_spec k "exclude") as [->|Hne]; [reflexivity|].
    destruct (String.eqb k "min-size"); [reflexivity|].
    destruct (String.eqb k "json"); [reflexivity|].
    destruct (String.eqb k "verbose"); reflexivity.
  - now rewrite (parse_arg_not_option o arg Hk).
Qed.

Lemma fold_parse_arg_exclude args : forall o,
  raw_exclude (fold_left parse_arg args o) =
  match exclude_values args with
  | [] => raw_exclude o
  | vs => Some (list_or_default (raw_exclude o) [] ++ vs)
  end.
Proof.
  induction args as [|arg args IH]; intros o; [reflexivity|].
  cbn [fold_left]. rewrite IH, parse_arg_exclude.
  replace (exclude_values (arg :: args))
    with (exclude_values [arg] ++ exclude_values args)
    by (unfold exclude_values; simpl; now rewrite app_nil_r).
  destruct (exclude_values [arg]) as [|v vs] eqn:E1;
    destruct (exclude_values args) as [|w ws] eqn:E2; simpl;
    rewrite ?app_nil_r; try reflexivity.
  now rewrite <- app_assoc.
Qed.

(** X9. The exclude patterns [main] configures are the values of the
    [--exclude] arguments, in their order; the six default patterns are used
    only when there is no such argument, so one [--exclude] is enough to
    scan [node_modules] and [.git]. *)
Theorem exclude_arguments_replace_defaults args :
  excludePatterns (scan_options (main_options args)) =
  match exclude_values args with
  | [] => default_excludes
  | vs => vs
  end.
Proof.
  unfold scan_options, main_options. cbn [new_AssetAudit options].
  assert (H := fold_parse_arg_exclude args no_options).
  destruct (raw_exclude (fold_left parse_arg args no_options)) as [l|] eqn:E;
    cbn [excludePatterns raw_exclude list_or_default]; rewrite ?E;
    destruct (exclude_values args); simpl in H; simpl; congruence.
Qed.

Lemma parse_arg_flags o arg :
  bool_or_false (raw_verbose (parse_arg o arg)) =
    bool_or_false (raw_verbose o) || has_key "verbose" arg /\
  bool_or_false (raw_json (parse_arg o arg)) =
    bool_or_false (raw_json o) || has_key "json" arg.
Proof.
  unfold has_key.
  destruct (arg_key arg) as [k|] eqn:Hk.
  - rewrite (parse_arg_key o arg k Hk).
    destruct (String.eqb_spec k "min-size") as [->|_];
      [simpl; rewrite !orb_false_r; split; reflexivity|].
    destruct (String.eqb_spec k "exclude") as [->|_];
      [simpl; rewrite !orb_false_r; split; reflexivity|].
    destruct (String.eqb_spec k "json") as [->|_];
      [simpl; rewrite orb_false_r, orb_true_r; split; reflexivity|].
    destruct (String.eqb_spec k "verbose") as [->|_];
      [simpl; rewrite orb_false_r, orb_true_r; split; reflexivity|].
    rewrite !orb_false_r; split; reflexivity.
  - rewrite (parse_arg_not_option o arg Hk). now rewrite !orb_false_r.
Qed.

Lemma fold_parse_arg_flags args : forall o,
  bool_or_false (raw_verbose (fold_left parse_arg args o)) =
    bool_or_false (raw_verbose o) || existsb (has_key "verbose") args /\
  bool_or_false (raw_json (fold_left parse_arg args o)) =
    bool_or_false (raw_json o) || existsb (has_key "json") args.
Proof.
  induction args as [|arg args IH]; intros o; cbn [fold_left existsb].
  - now rewrite !orb_false_r.
  - destruct (IH (parse_arg o arg)) as [-> ->].
    destruct (parse_arg_flags o arg) as [-> ->].
    now rewrite !orb_assoc.
Qed.

Lemma main_options_flags args :
  verbose (scan_options (main_options args)) =
    existsb (has_key "verbose") args /\
  json (scan_options (main_options args)) = existsb (has_key "json") args.
Proof.
  unfold scan_options, main_options. cbn [new_AssetAudit options].
  destruct (fold_parse_arg_flags args no_options) as [Hv Hj].
  destruct (raw_exclude (fold_left parse_arg args no_options));
    cbn [verbose json raw_verbose raw_json]; now rewrite Hv, Hj.
Qed.

(** X10. [verbose] and [json] are set exactly when some argument has the
    key [verbose] or [json]; the value after [=], if any, is not looked at,
    so [--verbose=false] turns [verbose] on. *)
Theorem flags_ignore_their_value args :
  verbose (scan_options (main_options args)) =
    existsb (has_key "verbose") args /\
  json (scan_options (main_options args)) = existsb (has_key "json") args /\
  forall value,
    has_key "verbose" ("--verbose=" ++ value) = true /\
    has_key "json" ("--json=" ++ value) = true.
Proof.
  destruct (main_options_flags args) as [Hv Hj].
  split; [exact Hv|]. split; [exact Hj|].
  assert (Hhd : forall s, hd "" (JsString.split "=" ("=" ++ s)) = "")
    by reflexivity.
  intros value. unfold has_key, arg_key, arg_parts. simpl.
  destruct (JsString.split "=" value); split; reflexivity.
Qed.

(** X11. The last argument with the key [min-size] decides: when
    [parseInt] reads its value as an integer other than 0, negative ones
    included, that integer is [minSize]. *)
Theorem last_min_size_wins pre arg post z :
  arg_key arg = Some "min-size" ->
  JsNumber.parseInt (arg_value arg) = JsNumber.Num z ->
  z <> 0 ->
  Forall (fun a => arg_key a <> Some "min-size") post ->
  minSize (scan_options (main_options (pre ++ arg :: post))) = z.
Proof.
  intros Hkey Hparse Hz Hpost.
  unfold scan_options. cbn [new_AssetAudit options minSize].
  rewrite main_options_minSize, fold_left_app. cbn [fold_left].
  rewrite (fold_parse_arg_other post _ Hpost),
    (parse_arg_min_size _ arg Hkey), Hparse.
  simpl. apply Z.eqb_neq in Hz. now rewrite Hz, Hz.
Qed.

End CommandLine.

(** ** [printResults] and [main] *)

Section Printed.

Variable formatBytes : Z -> string.

Lemma group_indices_app l1 l2 :
  group_indices (l1 ++ l2) = group_indices l1 ++ group_indices l2.
Proof. apply flat_map_app. Qed.

Lemma file_lines_app l1 l2 :
  file_lines (l1 ++ l2) = file_lines l1 ++ file_lines l2.
Proof. apply flat_map_app. Qed.

Lemma group_indices_files fs : group_indices (map FileLine fs) = [].
Proof. induction fs; simpl; auto. Qed.

Lemma file_lines_files fs : file_lines (map FileLine fs) = fs.
Proof. induction fs as [|f fs IH]; simpl; [reflexivity|]. now rewrite IH. Qed.

Lemma printGroups_indices groups : forall index,
  group_indices (printGroups formatBytes index groups) =
  map (fun k => index + Z.of_nat k) (seq 1 (List.length groups)).
Proof.
  induction groups as [|g groups IH]; intros index; [reflexivity|].
  cbn [printGroups List.length seq map].
  change (group_indices (?x :: ?l)) with (group_indices [x] ++ group_indices l).
  rewrite group_indices_app, group_indices_files, IH. simpl.
  f_equal.
  rewrite <- (seq_shift (List.length groups) 1), map_map.
  apply map_ext. intros k. lia.
Qed.

Lemma printGroups_files groups : forall index,
  file_lines (printGroups formatBytes index groups) = flat_map files groups.
Proof.
  induction groups as [|g groups IH]; intros index; [reflexivity|].
  cbn [printGroups flat_map].
  change (file_lines (?x :: ?l)) with (file_lines [x] ++ file_lines l).
  now rewrite file_lines_app, file_lines_files, IH.
Qed.

Lemma printGroups_lines x groups : forall index,
  (forall i, x <> FileLine i) ->
  (forall i e c w, x <> GroupHeader i e c w) ->
  ~ In x (printGroups formatBytes index groups).
Proof.
  induction groups as [|g l IH]; intros index Hf Hg; simpl; [auto|].
  intros [H|H]; [now apply (Hg _ _ _ _ (eq_sym H))|].
  apply in_app_iff in H. destruct H as [H|H]; [|now apply (IH (index + 1))].
  apply in_map_iff in H. destruct H as (f & H & _).
  now apply (Hf _ (eq_sym H)).
Qed.

(** X12. In text form [printResults] numbers the groups it shows from 1 to
    the smaller of 20 and the number of groups, and lists under them the
    files of the first 20 groups, in the order of the report; it writes that
    N - 20 more groups exist exactly when the report has N > 20 groups, and
    that no duplicate was found exactly when the report has no group. *)
Theorem printResults_shows_twenty_groups o results :
  json o = false ->
  let n := List.length (duplicateGroups results) in
  let lines := printResults formatBytes o results in
  group_indices lines = map Z.of_nat (seq 1 (Nat.min 20 n)) /\
  file_lines lines = flat_map files (firstn 20 (duplicateGroups results)) /\
  (forall k, In (MoreGroups k) lines <->
             (20 < n)%nat /\ k = Z.of_nat n - 20) /\
  (In NoDuplicates lines <-> n = 0%nat).
Proof.
  intros Hjson n lines. unfold lines, printResults. rewrite Hjson. fold n.
  set (hdr := [Rule; ResultsTitle; Rule; TotalScanned _; AssetsProcessed _;
               UniqueAssets _; DuplicateGroupsLine _; TotalDuplicatesLine _;
               WastedSpace _; EmptyLine]).
  set (shown := printGroups formatBytes 0 (firstn 20 (duplicateGroups results))).
  assert (Hidx : group_indices shown = map Z.of_nat (seq 1 (Nat.min 20 n))).
  { unfold shown. rewrite printGroups_indices, length_firstn. fold n.
    apply map_ext. intros; lia. }
  assert (Hfiles : file_lines shown =
                   flat_map files (firstn 20 (duplicateGroups results)))
    by apply printGroups_files.
  assert (Hshown : forall x, (forall i, x <> FileLine i) ->
             (forall i e c w, x <> GroupHeader i e c w) -> ~ In x shown)
    by (intros x Hf Hg; now apply printGroups_lines).
  assert (Hhdr : forall x mid,
             (forall k, x = MoreGroups k \/ x = NoDuplicates ->
                        (In x (hdr ++ mid ++ [ClosingRule]) <-> In x mid))).
  { intros x mid k Hx. rewrite !in_app_iff. unfold hdr. simpl.
    destruct Hx as [-> | ->]; intuition discriminate. }
  rewrite !group_indices_app, !file_lines_app.
  change (group_indices hdr) with (@nil Z).
  change (file_lines hdr) with (@nil string).
  change (group_indices [ClosingRule]) with (@nil Z).
  change (file_lines [ClosingRule]) with (@nil string).
  rewrite !app_nil_r. cbn [app].
  destruct (Z.gtb_spec (Z.of_nat n) 0) as [Hpos|Hzero].
  - assert (Hmore : forall x, In x ([Rule; DuplicatesTitle; Rule] ++ shown ++
                       (if Z.of_nat n >? 20
                        then [MoreGroups (Z.of_nat n - 20)] else [])) ->
                     (forall i, x <> FileLine i) ->
                     (forall i e c w, x <> GroupHeader i e c w) ->
                     x <> Rule -> x <> DuplicatesTitle ->
                     (20 < n)%nat /\ x = MoreGroups (Z.of_nat n - 20)).
    { intros x H Hf Hg Hr Ht. rewrite !in_app_iff in H.
      destruct H as [[H|[H|[H|[]]]]|[H|H]]; try congruence.
      - now destruct (Hshown x Hf Hg).
      - destruct (Z.gtb_spec (Z.of_nat n) 20); [|destruct H].
        destruct H as [<-|[]]. split; [lia|reflexivity]. }
    cbv iota in Hmore |- *.
    assert (Hg3 : forall l, group_indices (Rule :: DuplicatesTitle :: Rule :: l)
                            = group_indices l) by reflexivity.
    assert (Hf3 : forall l, file_lines (Rule :: DuplicatesTitle :: Rule :: l)
                            = file_lines l) by reflexivity.
    rewrite Hg3, Hf3, group_indices_app, file_lines_app, Hidx, Hfiles.
    split; [|split; [|split]].
    + destruct (Z.of_nat n >? 20); simpl; now rewrite app_nil_r.
    + destruct (Z.of_nat n >? 20); simpl; now rewrite app_nil_r.
    + intros k. rewrite (Hhdr _ _ k (or_introl eq_refl)). split.
      * intros H. destruct (Hmore _ H) as [Hn Hk]; try discriminate.
        split; [exact Hn|]. now injection Hk.
      * intros [Hn ->]. do 3 right. apply in_app_iff. right.
        destruct (Z.gtb_spec (Z.of_nat n) 20); [now left|lia].
    + rewrite (Hhdr _ _ 0 (or_intror eq_refl)). split; [|lia].
      intros H. destruct (Hmore _ H) as [_ Hk]; discriminate.
  - assert (Hn : n = 0%nat) by lia.
    cbv iota.
    split; [|split; [|split]].
    + rewrite Hn. reflexivity.
    + assert (Hnil : duplicateGroups results = [])
        by (now apply length_zero_iff_nil).
      now rewrite Hnil.
    + intros k. rewrite (Hhdr _ _ k (or_introl eq_refl)). split; [|lia].
      intros [H|[]]. discriminate.
    + rewrite (Hhdr _ _ 0 (or_intror eq_refl)). split; [intros _; exact Hn|].
      intros _. now left.
Qed.

End Printed.

Section Main.

Variable md5 : list byte -> string.
Variable formatBytes : Z -> string.
Variable resolve : string -> string.
Variable tree : string -> option (list entry).

(** X13. When [main] scans with a [json] argument, the JSON document is
    the last thing it writes and not the only one: the line that names the
    scanned directory comes first, and with [verbose] the lines of the scan
    follow it. Without [verbose] the output is that line and the
    document. *)
Theorem main_json_is_not_alone args directory :
  main_directory args = Some directory ->
  existsb (has_key "json") args = true ->
  exists r body,
    main formatBytes md5 resolve tree args =
      FromScan (LogScanning (resolve directory)) ::
      map FromScan body ++ [FromPrint (JsonDocument r)] /\
    (existsb (has_key "verbose") args = false -> body = []) /\
    snd (scan md5 (main_options args) (resolve directory)
           (tree (resolve directory)) []) = Normal r.
Proof.
  intros Hdir Hjson. unfold main. rewrite Hdir.
  fold (scan md5 (main_options args) (resolve directory)
          (tree (resolve directory)) []).
  destruct (scan_returns md5 (main_options args) (resolve directory)
              (tree (resolve directory)) []) as (this & r & Hscan).
  rewrite Hscan.
  destruct (scan_inv md5 _ _ _ _ _ _ Hscan) as (Hopts & _).
  destruct (main_options_flags args) as [Hv Hj].
  rewrite Hopts. unfold printResults. rewrite Hj, Hjson.
  destruct (scan_console_shape md5 _ _ _ _ _ _ Hscan) as [Hquiet Hloud].
  exists r.
  destruct (existsb (has_key "verbose") args) eqn:Hverbose.
  - destruct (Hloud Hv) as (body & Hc).
    exists (body ++ [LogProcessed (totalFilesProcessed (stats r))]).
    rewrite Hc. split; [reflexivity|]. split; [discriminate|reflexivity].
  - exists []. rewrite (Hquiet Hv). repeat split.
Qed.

End Main.

(** ** [hasValidExtension] *)

Section Extensions.

Lemma lower_ascii_slash c :
  Ascii.eqb (JsString.lower_ascii c) "/" = Ascii.eqb c "/".
Proof. destruct c as [[] [] [] [] [] [] [] []]; reflexivity. Qed.

Lemma lower_ascii_dot c :
  Ascii.eqb (JsString.lower_ascii c) "." = Ascii.eqb c ".".
Proof. destruct c as [[] [] [] [] [] [] [] []]; reflexivity. Qed.

Lemma toLowerCase_list s :
  list_ascii_of_string (JsString.toLowerCase s) =
  map JsString.lower_ascii (list_ascii_of_string s).
Proof. induction s as [|c s IH]; simpl; [reflexivity|]. now rewrite IH. Qed.

Lemma toLowerCase_length s :
  String.length (JsString.toLowerCase s) = String.length s.
Proof. induction s as [|c s IH]; simpl; [reflexivity|]. now rewrite IH. Qed.

Lemma toLowerCase_substring s : forall n m,
  String.substring n m (JsString.toLowerCase s) =
  JsString.toLowerCase (String.substring n m s).
Proof.
  induction s as [|c s IH]; intros [|n] [|m]; simpl; try reflexivity.
  - now rewrite IH.
  - apply IH.
  - apply IH.
Qed.

Lemma extname_loop_lower cs : forall i st,
  Path.extname_loop (map JsString.lower_ascii cs) i st =
  Path.extname_loop cs i st.
Proof.
  induction cs as [|c cs IH]; intros i st; [reflexivity|].
  cbn [map Path.extname_loop].
  rewrite lower_ascii_slash, lower_ascii_dot, !IH. reflexivity.
Qed.

Lemma extname_toLowerCase p :
  Path.extname (JsString.toLowerCase p) =
  JsString.toLowerCase (Path.extname p).
Proof.
  unfold Path.extname, JsString.slice.
  rewrite toLowerCase_list, <- map_rev, extname_loop_lower, toLowerCase_length.
  destruct (_ || _); [reflexivity|]. apply toLowerCase_substring.
Qed.

Lemma lower_ascii_ascii c :
  (N_of_ascii c <? 128)%N = true ->
  (N_of_ascii (JsString.lower_ascii c) <? 128)%N = true.
Proof.
  destruct c as [[] [] [] [] [] [] [] []]; intros H;
    solve [reflexivity | exact H].
Qed.

Lemma ascii_only_toLowerCase s :
  ascii_only s = true -> ascii_only (JsString.toLowerCase s) = true.
Proof.
  unfold ascii_only. induction s as [|c s IH]; [reflexivity|].
  cbn [list_ascii_of_string JsString.toLowerCase forallb].
  intros [Hc Hs]%andb_prop.
  now rewrite (lower_ascii_ascii c Hc), (IH Hs).
Qed.

Lemma ascii_only_substring s : forall n m,
  ascii_only s = true -> ascii_only (String.substring n m s) = true.
Proof.
  unfold ascii_only. induction s as [|c s IH]; intros [|n] [|m];
    cbn [String.substring list_ascii_of_string forallb];
    try reflexivity; intros [Hc Hs]%andb_prop.
  - rewrite Hc. now apply IH.
  - now apply IH.
  - now apply IH.
Qed.

Lemma ascii_only_extname p :
  ascii_only p = true -> ascii_only (Path.extname p) = true.
Proof.
  intros H. unfold Path.extname, JsString.slice.
  destruct (_ || _); [reflexivity|]. now apply ascii_only_substring.
Qed.

(** X14. On names made of ASCII characters, [hasValidExtension] does not
    look at the case of the letters: two such names that are equal once in
    lower case are both accepted or both rejected, whatever the allow-list,
    and the string that [toLowerCase] is applied to, the extension of the
    name, is made of ASCII characters as well. Names with other characters
    are left out: there [toLowerCase] follows Unicode, and the lower case of
    an extension need not be the extension of the lower case. *)
Theorem hasValidExtension_ignores_case ops name1 name2 :
  ascii_only name1 = true ->
  ascii_only name2 = true ->
  JsString.toLowerCase name1 = JsString.toLowerCase name2 ->
  hasValidExtension ops name1 = hasValidExtension ops name2 /\
  ascii_only (Path.extname name1) = true /\
  ascii_only (Path.extname name2) = true.
Proof.
  intros H1 H2 H. split; [|split; now apply ascii_only_extname].
  unfold hasValidExtension.
  now rewrite <- !extname_toLowerCase, H.
Qed.

End Extensions.

(** ** A [statSync] that throws *)

Section StatFailure.

Variable md5 : list byte -> string.

Lemma walkEntries_app ops dir baseDir pre rest :
  walkEntries (walk ops) dir baseDir (pre ++ rest) =
  (if snd (walkEntries (walk ops) dir baseDir pre)
   then fst (walkEntries (walk ops) dir baseDir pre)
   else fst (walkEntries (walk ops) dir baseDir pre) ++
        fst (walkEntries (walk ops) dir baseDir rest),
   snd (walkEntries (walk ops) dir baseDir pre) ||
   snd (walkEntries (walk ops) dir baseDir rest)).
Proof.
  induction pre as [|e pre IH].
  - simpl. now destruct (walkEntries (walk ops) dir baseDir rest).
  - change ((e :: pre) ++ rest) with (e :: pre ++ rest).
    rewrite !walkEntries_cons, IH.
    destruct (snd (walk ops e dir baseDir)); [reflexivity|].
    destruct (snd (walkEntries (walk ops) dir baseDir pre)); simpl;
      [reflexivity|now rewrite app_assoc].
Qed.

(** X15. When [statSync] throws on a file that is not excluded and has an
    allowed extension, the entries listed after it in the same directory
    play no part in the scan: the scanner ends as if the listing stopped at
    that file, whatever was listed before it. *)
Theorem stat_failure_hides_the_rest this dir baseDir name read pre rest :
  shouldExclude (options this)
    (Path.relative (base_or baseDir dir) (Path.join dir name)) = false ->
  hasValidExtension (options this) name = true ->
  scanDirectory md5 this dir baseDir
    (Some (pre ++ File name None read :: rest)) =
  scanDirectory md5 this dir baseDir (Some (pre ++ [File name None read])).
Proof.
  intros Hex Hext. rewrite !scanDirectory_walk. f_equal. f_equal.
  unfold walkDirectory, walkDirectory_body.
  assert (Hw : forall tail,
             walkEntries (walk (options this)) dir (base_or baseDir dir)
               (File name None read :: tail) =
             ([Seen (Path.join dir name)
                    (Path.relative (base_or baseDir dir) (Path.join dir name))
                    None read], true)).
  { intros tail. simpl. now rewrite Hex, Hext. }
  rewrite !walkEntries_app, !Hw. reflexivity.
Qed.

End StatFailure.

(** ** The options that do not change the report *)

Section ReportOptions.

Variable md5 : list byte -> string.

Lemma walk_same_filters ops1 ops2 :
  excludePatterns ops1 = excludePatterns ops2 ->
  extensions ops1 = extensions ops2 ->
  forall e dir baseDir, walk ops1 e dir baseDir = walk ops2 e dir baseDir.
Proof.
  intros Hex Hext.
  assert (Hs : forall p, shouldExclude ops1 p = shouldExclude ops2 p)
    by (intros p; unfold shouldExclude; now rewrite Hex).
  assert (Hv : forall n, hasValidExtension ops1 n = hasValidExtension ops2 n)
    by (intros n; unfold hasValidExtension; now rewrite Hext).
  induction e as [name stat read | name | name listing IH] using entry_ind;
    intros dir baseDir; simpl; rewrite Hs; try rewrite Hv; try reflexivity.
  destruct (shouldExclude ops2 _); [reflexivity|]. f_equal.
  unfold walkDirectory_body. destruct listing as [entries|]; [|reflexivity].
  specialize (IH entries eq_refl).
  assert (Hentries : forall d b,
             walkEntries (walk ops1) d b entries =
             walkEntries (walk ops2) d b entries).
  { intros d b. induction IH as [|e rest He _ IHrest]; [reflexivity|].
    now rewrite !walkEntries_cons, He, IHrest. }
  now rewrite Hentries.
Qed.

Lemma walkEntries_same_filters ops1 ops2 :
  excludePatterns ops1 = excludePatterns ops2 ->
  extensions ops1 = extensions ops2 ->
  forall entries dir baseDir,
    walkEntries (walk ops1) dir baseDir entries =
    walkEntries (walk ops2) dir baseDir entries.
Proof.
  intros Hex Hext entries dir baseDir.
  induction entries as [|e rest IH]; [reflexivity|].
  now rewrite !walkEntries_cons, (walk_same_filters _ _ Hex Hext), IH.
Qed.

Lemma inserts_same_minSize ops1 ops2 evs :
  minSize ops1 = minSize ops2 ->
  inserts md5 ops1 evs = inserts md5 ops2 evs /\
  filter (attempted ops1) evs = filter (attempted ops2) evs.
Proof.
  intros Hmin. induction evs as [|ev evs [IH1 IH2]]; [split; reflexivity|].
  destruct ev as [fullPath rel [sz|] [content|] | dir]; simpl;
    rewrite ?Hmin, ?IH1, ?IH2; split; reflexivity.
Qed.

(** X16. [verbose] and [json] have no part in the report: two scans of
    the same tree whose options agree on [minSize], the exclude patterns and
    the extensions return the same report and fill [filesByHash] alike,
    whatever the two consoles showed before. *)
Theorem report_ignores_verbose_and_json
    o1 o2 directory listing out1 out2 this1 r1 this2 r2 :
  minSize (scan_options o1) = minSize (scan_options o2) ->
  excludePatterns (scan_options o1) = excludePatterns (scan_options o2) ->
  extensions (scan_options o1) = extensions (scan_options o2) ->
  scan md5 o1 directory listing out1 = (this1, Normal r1) ->
  scan md5 o2 directory listing out2 = (this2, Normal r2) ->
  r1 = r2 /\ filesByHash this1 = filesByHash this2.
Proof.
  intros Hmin Hex Hext H1 H2.
  assert (Hevs : scan_events o1 directory listing =
                 scan_events o2 directory listing).
  { unfold scan_events, walkDirectory, walkDirectory_body.
    destruct listing as [entries|]; [|reflexivity].
    now rewrite (walkEntries_same_filters _ _ Hex Hext). }
  destruct (inserts_same_minSize _ _ (scan_events o2 directory listing) Hmin)
    as [Hins Hatt].
  destruct (scan_inv md5 _ _ _ _ _ _ H1) as (_ & Hi1 & Hg1 & Hs1 & Hp1 & Hw1).
  destruct (scan_inv md5 _ _ _ _ _ _ H2) as (_ & Hi2 & Hg2 & Hs2 & Hp2 & Hw2).
  destruct (stats_accounting md5 _ _ _ _ _ _ H1) as (Hr1 & Hc1 & Hd1).
  destruct (stats_accounting md5 _ _ _ _ _ _ H2) as (Hr2 & Hc2 & Hd2).
  rewrite Hevs, Hins in Hi1. rewrite Hevs in Hs1. rewrite Hevs, Hatt in Hp1.
  assert (Hidx : filesByHash this1 = filesByHash this2) by congruence.
  split; [|exact Hidx].
  rewrite Hidx in *.
  assert (Hg : duplicateGroups r1 = duplicateGroups r2) by congruence.
  rewrite Hg in *.
  destruct r1 as [[s1 p1 u1 c1 d1 w1] g1], r2 as [[s2 p2 u2 c2 d2 w2] g2].
  cbn [stats duplicateGroups totalFilesScanned totalFilesProcessed uniqueFiles
       duplicateGroupCount totalDuplicates totalWastedBytes] in *.
  subst g1. f_equal. f_equal; lia.
Qed.

End ReportOptions.

(** ** A second [analyze] on the same object *)

Section SameObject.

Variable md5 : list byte -> string.

Lemma analyze_inv this directory listing this' r :
  analyze md5 this directory listing = (this', Normal r) ->
  let evs := walkDirectory (options this) directory None listing in
  options this' = options this /\
  filesByHash this' =
    fold_left index_add (inserts md5 (options this) evs) (filesByHash this) /\
  totalFilesScanned (stats r) =
    totalFiles this + Z.of_nat (List.length (filter is_seen evs)) /\
  totalFilesProcessed (stats r) =
    processedFiles this +
    Z.of_nat (List.length (filter (attempted (options this)) evs)) /\
  uniqueFiles (stats r) = Z.of_nat (List.length (filesByHash this')) /\
  duplicateGroupCount (stats r) =
    Z.of_nat (List.length (groups_of (filesByHash this'))) /\
  totalFiles this' = totalFilesScanned (stats r) /\
  processedFiles this' = totalFilesProcessed (stats r).
Proof.
  rewrite analyze_eq. cbv zeta.
  set (this0 := log this (LogScanning directory)).
  set (this1 := fold_left _ _ this0).
  assert (Ho : options this1 = options this)
    by (unfold this1; now rewrite fold_apply_options).
  assert (Hf : filesByHash this1 =
               fold_left index_add
                 (inserts md5 (options this)
                    (walkDirectory (options this) directory None listing))
                 (filesByHash this))
    by (unfold this1; now rewrite fold_apply_filesByHash).
  assert (Ht : totalFiles this1 = totalFiles this + _)
    by (unfold this1; now rewrite fold_apply_totalFiles).
  assert (Hp : processedFiles this1 = processedFiles this + _)
    by (unfold this1; now rewrite fold_apply_processedFiles).
  assert (Hl : forall b x, options (log_if b this1 x) = options this1 /\
                 filesByHash (log_if b this1 x) = filesByHash this1 /\
                 totalFiles (log_if b this1 x) = totalFiles this1 /\
                 processedFiles (log_if b this1 x) = processedFiles this1)
    by (intros [] x; repeat split).
  intros [= <- <-].
  cbn [stats totalFilesScanned totalFilesProcessed uniqueFiles
       duplicateGroupCount].
  rewrite <- (Permutation_length (Array_sort_perm by_wasted _)).
  destruct (Hl (verbose (options this1)) (LogProcessed (processedFiles this1)))
    as (-> & -> & -> & ->).
  repeat split; assumption.
Qed.

Lemma add_key_present ks h : In h ks -> add_key ks h = ks.
Proof.
  induction ks as [|k ks IH]; simpl; [intros []|].
  destruct (String.eqb_spec k h) as [_|Hne]; [reflexivity|].
  intros [H|H]; [contradiction|]. now rewrite IH.
Qed.

Lemma fold_add_key_In hs : forall ks h,
  In h (fold_left add_key hs ks) <-> In h ks \/ In h hs.
Proof.
  induction hs as [|x hs IH]; intros ks h; simpl; [intuition|].
  rewrite IH, add_key_In. intuition.
Qed.

Lemma fold_add_key_present hs : forall ks,
  (forall h, In h hs -> In h ks) -> fold_left add_key hs ks = ks.
Proof.
  induction hs as [|x hs IH]; intros ks H; simpl; [reflexivity|].
  rewrite add_key_present by (apply H; now left).
  apply IH. intros h Hh. apply H. now right.
Qed.

Lemma groups_of_all m :
  Forall (fun kv => (2 <= List.length (snd kv))%nat) m ->
  List.length (groups_of m) = List.length m.
Proof.
  induction 1 as [|[h fs] m Hkv _ IH]; [reflexivity|].
  unfold groups_of in *. cbn [flat_map]. rewrite length_app, IH.
  simpl in Hkv.
  destruct (group_of_cases h fs) as [[_ Hle]|(g & -> & _)]; [lia|reflexivity].
Qed.

(** X17. [analyze] does not reset the object. Called a second time on the
    same object over the same tree, it reports twice the scanned and twice
    the processed files; every bucket holds its records twice, so every
    digest of the first report, unique or not, is now a duplicate group. *)
Theorem analyze_again_doubles o directory listing out this1 r1 this2 r2 :
  analyze md5 (new_AssetAudit o out) directory listing = (this1, Normal r1) ->
  analyze md5 this1 directory listing = (this2, Normal r2) ->
  totalFilesScanned (stats r2) = 2 * totalFilesScanned (stats r1) /\
  totalFilesProcessed (stats r2) = 2 * totalFilesProcessed (stats r1) /\
  uniqueFiles (stats r2) = uniqueFiles (stats r1) /\
  duplicateGroupCount (stats r2) = uniqueFiles (stats r1) /\
  forall h,
    bucket (filesByHash this2) h =
    bucket (filesByHash this1) h ++ bucket (filesByHash this1) h.
Proof.
  intros H1 H2.
  destruct (analyze_inv _ _ _ _ _ H1)
    as (Ho1 & Hf1 & Hs1 & Hp1 & Hu1 & _ & Ht1 & Hq1).
  destruct (analyze_inv _ _ _ _ _ H2)
    as (_ & Hf2 & Hs2 & Hp2 & Hu2 & Hc2 & _).
  rewrite Ho1 in *. cbn [new_AssetAudit filesByHash totalFiles processedFiles]
    in Hf1, Hs1, Hp1.
  set (ops := options (new_AssetAudit o out)) in *.
  set (ins := inserts md5 ops (walkDirectory ops directory None listing)) in *.
  assert (Hb : forall h, bucket (filesByHash this2) h =
                 bucket (filesByHash this1) h ++ bucket (filesByHash this1) h).
  { intros h. rewrite Hf2, bucket_fold_index_add. f_equal.
    rewrite Hf1, bucket_fold_index_add. reflexivity. }
  assert (Hk : map fst (filesByHash this2) = map fst (filesByHash this1)).
  { rewrite Hf2, keys_fold_index_add. apply fold_add_key_present.
    intros h Hh. rewrite Hf1, keys_fold_index_add.
    apply fold_add_key_In. now right. }
  assert (Hlen : List.length (filesByHash this2) =
                 List.length (filesByHash this1))
    by (rewrite <- (length_map fst), Hk; apply length_map).
  assert (Hnd1 : NoDup (map fst (filesByHash this1)))
    by (rewrite Hf1; apply keys_NoDup).
  assert (Hne1 : Forall (fun kv => snd kv <> []) (filesByHash this1))
    by (rewrite Hf1; apply fold_index_add_nonempty; constructor).
  assert (Hall : Forall (fun kv => (2 <= List.length (snd kv))%nat)
                   (filesByHash this2)).
  { apply Forall_forall. intros [h fs] Hkv. simpl.
    assert (Hfs : bucket (filesByHash this2) h = fs)
      by (apply In_bucket; [now rewrite Hk|exact Hkv]).
    assert (Hin : In h (map fst (filesByHash this1)))
      by (rewrite <- Hk; change h with (fst (h, fs)); now apply in_map).
    apply in_map_iff in Hin. destruct Hin as ([h' fs1] & Hh & Hkv1).
    simpl in Hh. subst h'.
    rewrite <- Hfs, Hb, (In_bucket _ _ _ Hnd1 Hkv1), length_app.
    rewrite Forall_forall in Hne1. specialize (Hne1 _ Hkv1). simpl in Hne1.
    destruct fs1; [now contradiction Hne1|simpl; lia]. }
  rewrite (groups_of_all _ Hall) in Hc2.
  repeat split; try exact Hb; lia.
Qed.

End SameObject.

(** ** A larger [minSize] *)

Section LargerMinSize.

Variable md5 : list byte -> string.

Lemma inserts_larger_minSize ops1 ops2 evs :
  minSize ops1 <= minSize ops2 ->
  inserts md5 ops2 evs =
  filter (fun i => size (snd i) >=? minSize ops2) (inserts md5 ops1 evs).
Proof.
  intros Hle. induction evs as [|ev evs IH]; [reflexivity|].
  destruct ev as [fullPath rel [sz|] [content|] | dir]; simpl; try exact IH.
  destruct (Z.geb_spec sz (minSize ops2)) as [H2|H2];
    destruct (Z.geb_spec sz (minSize ops1)) as [H1|H1]; try lia; simpl;
    destruct (JsString.truthy (md5 content)); simpl; try exact IH.
  - destruct (Z.geb_spec sz (minSize ops2)); [|lia]. now rewrite IH.
  - destruct (Z.geb_spec sz (minSize ops2)); [lia|]. exact IH.
Qed.

Lemma attempted_larger_minSize ops1 ops2 evs :
  minSize ops1 <= minSize ops2 ->
  (List.length (filter (attempted ops2) evs) <=
   List.length (filter (attempted ops1) evs))%nat.
Proof.
  intros Hle. induction evs as [|ev evs IH]; [simpl; lia|].
  destruct ev as [fullPath rel [sz|] read | dir]; simpl; try exact IH.
  destruct (Z.geb_spec sz (minSize ops2));
    destruct (Z.geb_spec sz (minSize ops1)); simpl; lia.
Qed.

Lemma filter_filter_swap {A : Type} (f g : A -> bool) l :
  filter f (filter g l) = filter g (filter f l).
Proof.
  induction l as [|x l IH]; simpl; [reflexivity|].
  destruct (f x) eqn:Hf, (g x) eqn:Hg; simpl; rewrite ?Hf, ?Hg, IH;
    reflexivity.
Qed.

Lemma map_snd_filter_size (m : Z) (l : list (string * FileRecord)) :
  map snd (filter (fun i => size (snd i) >=? m) l) =
  filter (fun f => size f >=? m) (map snd l).
Proof.
  induction l as [|i l IH]; simpl; [reflexivity|].
  destruct (size (snd i) >=? m); simpl; now rewrite IH.
Qed.

(** X18. With the same filters and a larger [minSize], the scan sees the
    same files, so [totalFilesScanned] is the same; each bucket is the
    bucket of the smaller [minSize] without the records below the larger
    one; and fewer or as many files are processed. *)
Theorem larger_minSize_filters_buckets
    o1 o2 directory listing out1 out2 this1 r1 this2 r2 :
  minSize (scan_options o1) <= minSize (scan_options o2) ->
  excludePatterns (scan_options o1) = excludePatterns (scan_options o2) ->
  extensions (scan_options o1) = extensions (scan_options o2) ->
  scan md5 o1 directory listing out1 = (this1, Normal r1) ->
  scan md5 o2 directory listing out2 = (this2, Normal r2) ->
  totalFilesScanned (stats r2) = totalFilesScanned (stats r1) /\
  totalFilesProcessed (stats r2) <= totalFilesProcessed (stats r1) /\
  forall h,
    bucket (filesByHash this2) h =
    filter (fun f => size f >=? minSize (scan_options o2))
           (bucket (filesByHash this1) h).
Proof.
  intros Hmin Hex Hext H1 H2.
  assert (Hevs : scan_events o1 directory listing =
                 scan_events o2 directory listing).
  { unfold scan_events, walkDirectory, walkDirectory_body.
    destruct listing as [entries|]; [|reflexivity].
    now rewrite (walkEntries_same_filters _ _ Hex Hext). }
  destruct (scan_inv md5 _ _ _ _ _ _ H1) as (_ & Hi1 & _ & Hs1 & Hp1 & _).
  destruct (scan_inv md5 _ _ _ _ _ _ H2) as (_ & Hi2 & _ & Hs2 & Hp2 & _).
  rewrite Hevs in Hi1, Hs1, Hp1.
  split; [congruence|]. split.
  - rewrite Hp1, Hp2. apply inj_le. now apply attempted_larger_minSize.
  - intros h. rewrite Hi1, Hi2, !bucket_fold_index_add. simpl.
    rewrite (inserts_larger_minSize _ _ _ Hmin), filter_filter_swap.
    apply map_snd_filter_size.
Qed.

End LargerMinSize.

(** ** The extension of a record *)

Section RecordExtension.

Variable md5 : list byte -> string.

Lemma extname_loop_app cs : forall tail i st,
  no_slash cs ->
  Path.extname_loop (cs ++ tail) i st =
  Path.extname_loop tail (i - Z.of_nat (List.length cs))
                    (Path.extname_loop cs i st).
Proof.
  induction cs as [|c cs IH]; intros tail i st Hns.
  - simpl. now rewrite Z.sub_0_r.
  - inversion Hns as [|? ? Hc Hcs]; subst.
    cbn [app Path.extname_loop]. rewrite Hc, (IH _ _ _ Hcs).
    f_equal. cbn [List.length]. lia.
Qed.

Lemma extname_loop_step c cs i st :
  Ascii.eqb c "/" = false ->
  Path.extname_loop (c :: cs) i st =
  Path.extname_loop cs (i - 1) (ext_step c i st).
Proof. intros Hc. cbn [Path.extname_loop]. now rewrite Hc. Qed.

Lemma ext_step_valid c i st :
  0 <= i -> scan_valid st ->
  scan_valid (ext_step c i st) /\
  Path.startPart (ext_step c i st) = Path.startPart st /\
  Path.end_ (ext_step c i st) <> -1.
Proof.
  intros Hi (Hsd & Hen & Hms). destruct st as [sd sp en ms pd].
  unfold ext_step, scan_valid in *.
  cbn [Path.startDot Path.end_ Path.matchedSlash Path.startPart
       Path.preDotState] in *.
  destruct (Z.eqb_spec en (-1));
    cbn [Path.startDot Path.end_ Path.matchedSlash Path.startPart
         Path.preDotState];
    destruct (Ascii.eqb c "."); destruct (Z.eqb_spec sd (-1));
    cbn [Path.startDot Path.end_ Path.matchedSlash Path.startPart
         Path.preDotState negb];
    try destruct (Z.eqb_spec pd 1);
    cbn [Path.startDot Path.end_ Path.matchedSlash Path.startPart
         Path.preDotState negb];
    (split; [split; [|split]|split]);
    try reflexivity; try lia; try tauto; try (right; lia);
    try (intros _; reflexivity).
Qed.

Lemma ext_step_shift k c i st :
  0 <= k -> 0 <= i -> scan_valid st ->
  ext_step c (i + k) (shift_scan k st) = shift_scan k (ext_step c i st).
Proof.
  intros Hk Hi (Hsd & Hen & Hms). destruct st as [sd sp en ms pd].
  unfold ext_step, shift_scan, scan_valid in *.
  scan_cases; try reflexivity; try (f_equal; lia).
Qed.

Lemma extname_loop_shift k cs : forall i st,
  0 <= k ->
  no_slash cs ->
  Z.of_nat (List.length cs) <= i + 1 ->
  scan_valid st ->
  Path.extname_loop cs (i + k) (shift_scan k st) =
    shift_scan k (Path.extname_loop cs i st) /\
  scan_valid (Path.extname_loop cs i st) /\
  Path.startPart (Path.extname_loop cs i st) = Path.startPart st /\
  (cs <> [] -> Path.end_ (Path.extname_loop cs i st) <> -1).
Proof.
  intros i st Hk. revert i st.
  induction cs as [|c cs IH]; intros i st Hns Hlen Hv.
  - simpl. repeat split; try apply Hv. intros H. now contradiction H.
  - inversion Hns as [|? ? Hc Hcs]; subst.
    cbn [List.length] in Hlen.
    rewrite !(extname_loop_step c cs _ _ Hc).
    assert (Hi : 0 <= i) by lia.
    destruct (ext_step_valid c i st Hi Hv) as (Hv2 & Hsp2 & Hen2).
    rewrite (ext_step_shift k c i st Hk Hi Hv).
    replace (i + k - 1) with (i - 1 + k) by lia.
    destruct (IH (i - 1) (ext_step c i st) Hcs ltac:(lia) Hv2)
      as (H1 & H2 & H3 & H4).
    rewrite H1. repeat split; try apply H2; try congruence.
    intros _. destruct cs as [|c' cs']; [exact Hen2|].
    apply H4. discriminate.
Qed.

Lemma list_ascii_of_string_app a b :
  list_ascii_of_string (a ++ b) =
  list_ascii_of_string a ++ list_ascii_of_string b.
Proof. induction a as [|c a IH]; simpl; [reflexivity|]. now rewrite IH. Qed.

Lemma string_length_list s :
  String.length s = List.length (list_ascii_of_string s).
Proof. induction s as [|c s IH]; simpl; [reflexivity|]. now rewrite IH. Qed.

Lemma substring_skip a : forall n m s,
  String.substring (String.length a + n) m (a ++ s) = String.substring n m s.
Proof.
  induction a as [|c a IH]; intros n m s; [reflexivity|]. simpl. apply IH.
Qed.

Lemma name_ok_chars name :
  name_ok name = true ->
  no_slash (rev (list_ascii_of_string name)) /\
  rev (list_ascii_of_string name) <> [].
Proof.
  unfold name_ok. intros H. apply andb_true_iff in H. destruct H as [Hne Hall].
  split.
  - apply Forall_rev, Forall_forall. intros c Hc.
    rewrite forallb_forall in Hall. specialize (Hall c Hc).
    now destruct (Ascii.eqb c "/").
  - destruct name as [|c name]; [discriminate|]. simpl.
    intros Hc. apply (f_equal (@List.length ascii)) in Hc.
    rewrite length_app in Hc. simpl in Hc. lia.
Qed.

Lemma extname_loop_break tail i st :
  Path.matchedSlash st = false ->
  Path.extname_loop ("/"%char :: tail) i st =
  Path.mkExtScan (Path.startDot st) (i + 1) (Path.end_ st)
                 (Path.matchedSlash st) (Path.preDotState st).
Proof. intros H. cbn [Path.extname_loop]. now rewrite H. Qed.

Lemma extname_states pre name :
  name_ok name = true ->
  let K := Z.of_nat (String.length pre) + 1 in
  exists sd en pd,
    Path.extname_loop (rev (list_ascii_of_string name))
      (Z.of_nat (String.length name) - 1)
      (Path.mkExtScan (-1) 0 (-1) true 0) =
    Path.mkExtScan sd 0 en false pd /\
    Path.extname_loop (rev (list_ascii_of_string (pre ++ "/" ++ name)))
      (Z.of_nat (String.length (pre ++ "/" ++ name)) - 1)
      (Path.mkExtScan (-1) 0 (-1) true 0) =
    Path.mkExtScan (if sd =? -1 then -1 else sd + K) K (en + K) false pd /\
    (sd = -1 \/ 0 <= sd) /\ 0 <= en.
Proof.
  intros Hok K. destruct (name_ok_chars name Hok) as [Hns Hne].
  set (cs := rev (list_ascii_of_string name)) in *.
  set (init := Path.mkExtScan (-1) 0 (-1) true 0).
  assert (HL : Z.of_nat (String.length name) = Z.of_nat (List.length cs))
    by (unfold cs; now rewrite length_rev, string_length_list).
  assert (Hrev : rev (list_ascii_of_string (pre ++ "/" ++ name)) =
                 cs ++ "/"%char :: rev (list_ascii_of_string pre)).
  { rewrite !list_ascii_of_string_app, !rev_app_distr. simpl.
    now rewrite <- app_assoc. }
  assert (Hlen : Z.of_nat (String.length (pre ++ "/" ++ name)) - 1 =
                 Z.of_nat (String.length name) - 1 + K).
  { rewrite !string_length_list, !list_ascii_of_string_app, !length_app.
    simpl. unfold K. rewrite string_length_list. lia. }
  assert (Hinit : scan_valid init)
    by (unfold init, scan_valid; simpl; repeat split; auto; intros H; lia).
  destruct (extname_loop_shift K cs (Z.of_nat (String.length name) - 1) init
              ltac:(unfold K; lia) Hns ltac:(lia) Hinit)
    as (Hshift & Hvalid & Hpart & Hend).
  specialize (Hend Hne).
  rewrite Hrev, Hlen, (extname_loop_app cs _ _ _ Hns).
  change (shift_scan K init) with init in Hshift. rewrite Hshift.
  destruct Hvalid as (Hsd & Hen & Hms). specialize (Hms Hend).
  rewrite extname_loop_break by exact Hms.
  replace (Z.of_nat (String.length name) - 1 + K - Z.of_nat (List.length cs) + 1)
    with K by lia.
  destruct (Path.extname_loop cs (Z.of_nat (String.length name) - 1) init)
    as [sd sp en ms pd].
  unfold shift_scan.
  cbn [Path.startDot Path.end_ Path.matchedSlash Path.startPart
       Path.preDotState init] in *.
  subst sp ms. exists sd, en, pd.
  destruct (Z.eqb_spec en (-1)); [contradiction|].
  repeat split; try assumption. lia.
Qed.

(** The extension of a path is the extension of its last component. *)
Lemma extname_under pre name :
  name_ok name = true ->
  Path.extname (pre ++ "/" ++ name) = Path.extname name.
Proof.
  intros Hok.
  destruct (extname_states pre name Hok)
    as (sd & en & pd & Hname & Hpath & Hsd & Hen).
  set (K := Z.of_nat (String.length pre) + 1) in *.
  unfold Path.extname. cbv zeta. rewrite Hname, Hpath.
  cbn [Path.startDot Path.end_ Path.matchedSlash Path.startPart
       Path.preDotState].
  assert (Hslice : 0 <= sd ->
             JsString.slice (pre ++ "/" ++ name) (sd + K) (en + K) =
             JsString.slice name sd en).
  { intros Hsd0. unfold JsString.slice.
    replace (en + K - (sd + K)) with (en - sd) by lia.
    replace (Z.to_nat (sd + K))
      with (String.length (pre ++ "/") + Z.to_nat sd)%nat.
    - rewrite <- (append_assoc pre "/" name). apply substring_skip.
    - rewrite string_length_list, list_ascii_of_string_app, length_app,
        <- string_length_list. simpl. unfold K. lia. }
  destruct (Z.eqb_spec sd (-1)) as [->|Hsd'].
  - reflexivity.
  - assert (Hsd0 : 0 <= sd) by lia.
    destruct (Z.eqb_spec en (-1)); [lia|].
    destruct (Z.eqb_spec (sd + K) (-1)); [lia|].
    destruct (Z.eqb_spec (en + K) (-1)); [lia|].
    cbn [orb]. destruct (pd =? 0); [reflexivity|].
    destruct (pd =? 1); cbn [andb orb]; [|now apply Hslice].
    destruct (Z.eqb_spec sd (en - 1)), (Z.eqb_spec (sd + K) (en + K - 1));
      try lia; cbn [andb]; [|now apply Hslice].
    destruct (Z.eqb_spec sd (0 + 1)), (Z.eqb_spec (sd + K) (K + 1));
      try lia; [reflexivity|now apply Hslice].
Qed.

Lemma endsWithSep_split dir :
  Path.endsWithSep dir = true -> exists pre, dir = (pre ++ "/")%string.
Proof.
  induction dir as [|c dir IH]; [discriminate|].
  destruct dir as [|c' dir'].
  - simpl. intros H. apply Ascii.eqb_eq in H. subst. now exists "".
  - intros H. destruct (IH H) as (pre & Hpre).
    exists (String c pre). simpl. now rewrite <- Hpre.
Qed.

Lemma extname_join dir name :
  name_ok name = true ->
  Path.extname (Path.join dir name) = Path.extname name.
Proof.
  intros Hok. unfold Path.join, Path.sep.
  destruct (Path.endsWithSep dir) eqn:E.
  - destruct (endsWithSep_split dir E) as (pre & ->).
    rewrite append_assoc. now apply extname_under.
  - now apply extname_under.
Qed.

Lemma walkEntries_extension ops entries :
  Forall (fun e => names_ok e = true ->
            forall dir baseDir ev,
              In ev (fst (walk ops e dir baseDir)) ->
              seen_extension_ok ops ev) entries ->
  forallb names_ok entries = true ->
  forall dir baseDir ev,
    In ev (fst (walkEntries (walk ops) dir baseDir entries)) ->
    seen_extension_ok ops ev.
Proof.
  induction 1 as [|e rest He _ IH]; intros Hok dir baseDir ev;
    [intros []|].
  simpl in Hok. apply andb_true_iff in Hok. destruct Hok as [Hoke Hokr].
  rewrite walkEntries_cons. cbn [fst].
  destruct (snd (walk ops e dir baseDir)); rewrite ?in_app_iff;
    intros H; [|destruct H as [H|H]];
    eauto.
Qed.

Lemma walk_extension ops : forall e,
  names_ok e = true ->
  forall dir baseDir ev,
    In ev (fst (walk ops e dir baseDir)) -> seen_extension_ok ops ev.
Proof.
  induction e as [name stat read | name | name listing IH] using entry_ind;
    intros Hok dir baseDir ev; simpl;
    destruct (shouldExclude ops _); simpl; try (intros []).
  - destruct (hasValidExtension ops name) eqn:Hext; simpl; [|intros []].
    intros [<-|[]]. simpl in *.
    rewrite andb_true_r in Hok. rewrite (extname_join dir name Hok).
    unfold hasValidExtension in Hext. apply existsb_exists in Hext.
    destruct Hext as (x & Hin & Heq). apply String.eqb_eq in Heq.
    now rewrite Heq.
  - unfold walkDirectory_body.
    destruct listing as [entries|]; [|intros [<-|[]]; exact I].
    simpl in Hok. apply andb_true_iff in Hok. destruct Hok as [_ Hok].
    assert (Hsub := walkEntries_extension ops entries (IH entries eq_refl) Hok
                      (Path.join dir name)
                      (base_or (Some baseDir) (Path.join dir name)) ev).
    destruct (walkEntries _ _ _ entries) as [evs thrown]. simpl in Hsub.
    destruct thrown; [|exact Hsub].
    rewrite in_app_iff. intros [H|[<-|[]]]; [auto|exact I].
Qed.

(** X19. When the names of the tree are names of a directory listing (not
    empty, without separator), the extension stored in a record, computed
    from the full path, is the lower-case extension of the name that
    [hasValidExtension] tested: the extension of every record and of every
    duplicate group is in the allow-list. *)
Theorem record_extension_is_allowed o directory listing out this r :
  scan md5 o directory listing out = (this, Normal r) ->
  listing_names_ok listing = true ->
  (forall h fs f,
     In (h, fs) (filesByHash this) -> In f fs ->
     In (extension f) (extensions (scan_options o))) /\
  (forall g,
     In g (duplicateGroups r) ->
     In (groupExtension g) (extensions (scan_options o))).
Proof.
  intros Hscan Hok.
  destruct (scan_inv md5 o directory listing out this r Hscan)
    as (_ & Hidx & Hgroups & _).
  assert (Hev : forall ev, In ev (scan_events o directory listing) ->
                           seen_extension_ok (scan_options o) ev).
  { intros ev. unfold scan_events, walkDirectory, walkDirectory_body.
    destruct listing as [entries|]; [|intros [<-|[]]; exact I].
    assert (Hsub := walkEntries_extension (scan_options o) entries
                      (proj2 (Forall_forall _ _)
                         (fun e _ => walk_extension (scan_options o) e))
                      Hok directory (base_or None directory) ev).
    destruct (walkEntries _ _ _ entries) as [evs thrown]. simpl in Hsub.
    destruct thrown; [|exact Hsub].
    rewrite in_app_iff. intros [H|[<-|[]]]; [auto|exact I]. }
  assert (Hrec : forall h fs f,
             In (h, fs) (filesByHash this) -> In f fs ->
             In (extension f) (extensions (scan_options o))).
  { intros h fs f Hkv Hf.
    assert (Hb : bucket (filesByHash this) h = fs).
    { apply In_bucket; [|exact Hkv]. rewrite Hidx. apply keys_NoDup. }
    rewrite <- Hb, Hidx in Hf. apply bucket_from_inserts in Hf.
    apply inserts_In in Hf. destruct Hf as (ev & Hin & Hins).
    specialize (Hev ev Hin).
    destruct ev as [fullPath rel [sz|] [content|] | dir]; try discriminate.
    simpl in Hins. destruct (_ && _); [|discriminate].
    injection Hins as _ <-. exact Hev. }
  split; [exact Hrec|].
  intros g Hg. rewrite Hgroups in Hg.
  apply (Permutation_in g (Permutation_sym (Array_sort_perm by_wasted _)))
    in Hg.
  apply groups_of_In in Hg. destruct Hg as ([h fs] & Hkv & Hg).
  destruct (group_of_In g h fs Hg) as (_ & f0 & rest & Hfs & ->).
  cbn [groupExtension]. apply (Hrec h fs f0 Hkv). rewrite Hfs. now left.
Qed.

End RecordExtension.

(** ** The progress lines *)

Section Progress.

Variable md5 : list byte -> string.

Lemma div_100_succ p :
  0 <= p ->
  (p + 1) / 100 = p / 100 + (if (p + 1) mod 100 =? 0 then 1 else 0).
Proof.
  intros Hp.
  assert (H1 := Z.div_mod (p + 1) 100 ltac:(lia)).
  assert (H2 := Z.mod_pos_bound (p + 1) 100 ltac:(lia)).
  destruct (Z.eqb_spec ((p + 1) mod 100) 0) as [E|E].
  - assert (H : (p + 1) / 100 - 1 = p / 100)
      by (apply (Z.div_unique p 100 ((p + 1) / 100 - 1) 99); lia).
    lia.
  - rewrite Z.add_0_r.
    apply (Z.div_unique p 100 ((p + 1) / 100) ((p + 1) mod 100 - 1)); lia.
Qed.

Lemma processFile_progress this fullPath relativePath sz read :
  exists lines,
    console (fst (processFile md5 this fullPath relativePath sz read)) =
      console this ++ lines /\
    Z.of_nat (List.length (filter is_progress_line lines)) =
      (if verbose (options this) && ((processedFiles this + 1) mod 100 =? 0)
       then 1 else 0).
Proof.
  unfold processFile, report_progress, getFileHash, log_if, log; simpl.
  destruct ((processedFiles this + 1) mod 100 =? 0);
    destruct read as [content|]; simpl;
    try destruct (JsString.truthy (md5 content)); simpl;
    destruct (verbose (options this)) eqn:Hv; simpl; rewrite ?Hv; simpl;
    repeat rewrite <- app_assoc;
    eexists; (split; [try reflexivity; symmetry; apply app_nil_r|]);
    reflexivity.
Qed.

Lemma fold_apply_progress evs : forall this,
  0 <= processedFiles this ->
  exists lines,
    console (fold_left (apply_event md5) evs this) = console this ++ lines /\
    Z.of_nat (List.length (filter is_progress_line lines)) =
      (if verbose (options this)
       then (processedFiles this +
             Z.of_nat (List.length (filter (attempted (options this)) evs)))
            / 100 - processedFiles this / 100
       else 0).
Proof.
  induction evs as [|ev evs IH]; intros this Hp.
  - exists []. simpl. rewrite app_nil_r, Z.add_0_r, Z.sub_diag.
    now destruct (verbose (options this)).
  - cbn [fold_left filter].
    assert (Hstep : exists l1,
               console (apply_event md5 this ev) = console this ++ l1 /\
               Z.of_nat (List.length (filter is_progress_line l1)) =
               (if verbose (options this) && attempted (options this) ev &&
                   ((processedFiles this + 1) mod 100 =? 0)
                then 1 else 0)).
    { destruct ev as [fullPath rel [sz|] read | dir]; simpl.
      - destruct (sz >=? minSize (options this)).
        + destruct (processFile_progress (incr_totalFiles this) fullPath rel
                      sz read) as (l1 & Hc & Hn).
          exists l1. split; [exact Hc|].
          rewrite Hn. cbn [options incr_totalFiles processedFiles].
          now rewrite andb_true_r.
        + exists []. rewrite app_nil_r, andb_false_r. now split.
      - exists []. rewrite app_nil_r, andb_false_r. now split.
      - exists (if verbose (options this) then [ErrScanning dir] else []).
        unfold log_if, log. rewrite andb_false_r.
        destruct (verbose (options this)); simpl;
          rewrite ?app_nil_r; now split. }
    destruct Hstep as (l1 & Hc1 & Hn1).
    assert (Hp' : 0 <= processedFiles (apply_event md5 this ev))
      by (rewrite apply_event_processedFiles;
          destruct (attempted (options this) ev); lia).
    destruct (IH (apply_event md5 this ev) Hp') as (l2 & Hc2 & Hn2).
    rewrite apply_event_options, apply_event_processedFiles in Hn2.
    exists (l1 ++ l2). split; [now rewrite Hc2, Hc1, app_assoc|].
    rewrite filter_app, length_app, Nat2Z.inj_add, Hn1, Hn2.
    destruct (verbose (options this)); [|reflexivity].
    cbn [andb].
    destruct (attempted (options this) ev); cbn [andb List.length].
    + rewrite (div_100_succ _ Hp), Nat2Z.inj_succ.
      replace (processedFiles this + Z.succ _)
        with (processedFiles this + 1 + Z.of_nat
                (List.length (filter (attempted (options this)) evs)))
        by lia.
      destruct (_ =? 0); lia.
    + rewrite Z.add_0_r. lia.
Qed.

(** X20. With [verbose], the scan writes one progress line for every
    hundredth processed file: between the line that names the directory and
    the last line there are as many progress lines as the processed files
    divided by 100, rounded down. *)
Theorem progress_every_hundred_files o directory listing out this r :
  scan md5 o directory listing out = (this, Normal r) ->
  verbose (scan_options o) = true ->
  exists body,
    console this =
      out ++ LogScanning directory :: body ++
      [LogProcessed (totalFilesProcessed (stats r))] /\
    Z.of_nat (List.length (filter is_progress_line body)) =
      totalFilesProcessed (stats r) / 100.
Proof.
  intros Hscan Hv.
  destruct (scan_inv md5 o directory listing out this r Hscan)
    as (_ & _ & _ & _ & Hproc & _).
  revert Hscan. unfold scan. rewrite analyze_eq. cbv zeta.
  set (this0 := log (new_AssetAudit o out) (LogScanning directory)).
  destruct (fold_apply_progress
              (walkDirectory (options (new_AssetAudit o out)) directory None
                 listing) this0 ltac:(simpl; lia)) as (body & Hc & Hn).
  set (this1 := fold_left _ _ this0) in *.
  assert (Ho : options this1 = scan_options o)
    by (unfold this1; now rewrite fold_apply_options).
  change (options this0) with (scan_options o) in Hn.
  change (console this0) with (out ++ [LogScanning directory]) in Hc.
  change (processedFiles this0) with 0 in Hn.
  rewrite Hv in Hn.
  rewrite Ho, Hv. cbn [log_if].
  intros [= <- <-]. exists body.
  cbn [stats totalFilesProcessed log console processedFiles]. split.
  - rewrite Hc, <- !app_assoc. reflexivity.
  - cbn [stats totalFilesProcessed] in Hproc.
    rewrite Hn, Hproc, Z.add_0_l. change (0 / 100) with 0.
    now rewrite Z.sub_0_r.
Qed.

End Progress.

(** ** The further properties on the sample runs *)

Section MoreSamples.

Lemma records_not_excluded_witness :
  shouldExclude (scan_options no_options) "docs/d.pdf" = false.
Proof.
  refine (proj2 (records_not_excluded tag_digest no_options "/r"
                   sample_listing [] (fst sample_scan) sample_report _)
            first_group "docs/d.pdf" _ _).
  - evaluated.
  - vm_compute. tauto.
  - vm_compute. tauto.
Defined.

Lemma buckets_group_by_digest_witness :
  NoDup (map fst (filesByHash (fst sample_scan))).
Proof.
  refine (proj1 (buckets_group_by_digest tag_digest no_options "/r"
                   sample_listing [] (fst sample_scan) sample_report _)).
  evaluated.
Defined.

Lemma stats_add_up_witness :
  record_count (filesByHash (fst sample_scan)) =
  uniqueFiles (stats sample_report) + totalDuplicates (stats sample_report).
Proof.
  refine (proj1 (stats_add_up tag_digest no_options "/r" sample_listing []
                   (fst sample_scan) sample_report _)).
  evaluated.
Defined.

Lemma groups_are_the_repeated_digests_witness :
  NoDup (map hash (duplicateGroups sample_report)).
Proof.
  refine (proj1 (groups_are_the_repeated_digests tag_digest no_options "/r"
                   sample_listing [] (fst sample_scan) sample_report _)).
  evaluated.
Defined.

Lemma no_group_iff_digests_differ_witness :
  duplicateGroups (report_of (snd (scan tag_digest no_options "/r"
                                     tiny_listing []))) = [] <->
  NoDup (map fst (inserts tag_digest (scan_options no_options)
                    (scan_events no_options "/r" tiny_listing))).
Proof.
  refine (proj1 (no_group_iff_digests_differ tag_digest no_options "/r"
                   tiny_listing []
                   (fst (scan tag_digest no_options "/r" tiny_listing []))
                   (report_of (snd (scan tag_digest no_options "/r"
                                      tiny_listing []))) _)).
  evaluated.
Defined.

Lemma nothing_to_scan_witness :
  stats (report_of (snd (scan tag_digest no_options "/r" (Some []) []))) =
  zero_stats.
Proof.
  refine (proj1 (nothing_to_scan tag_digest no_options "/r" (Some []) []
                   (fst (scan tag_digest no_options "/r" (Some []) []))
                   (report_of (snd (scan tag_digest no_options "/r"
                                      (Some []) [])))
                   (or_intror (or_introl eq_refl)) _)).
  evaluated.
Defined.

Lemma scan_console_lines_witness :
  console (fst sample_scan) = [] ++ [LogScanning "/r"].
Proof.
  refine (proj1 (scan_console_lines tag_digest no_options "/r" sample_listing
                   [] (fst sample_scan) sample_report _) eq_refl).
  evaluated.
Defined.

Lemma last_min_size_wins_witness :
  minSize (scan_options (main_options (["/r"] ++ "--min-size=-1" :: []))) = -1.
Proof.
  refine (last_min_size_wins ["/r"] "--min-size=-1" [] (-1) _ _ _ _).
  - reflexivity.
  - reflexivity.
  - discriminate.
  - constructor.
Defined.

Lemma printResults_shows_twenty_groups_witness :
  group_indices
    (printResults plain_bytes (scan_options no_options) sample_report) =
  [1; 2].
Proof.
  refine (proj1 (printResults_shows_twenty_groups plain_bytes
                   (scan_options no_options) sample_report _)).
  reflexivity.
Defined.

Lemma main_json_is_not_alone_witness :
  exists r body,
    main plain_bytes tag_digest (fun d => d) (fun _ => sample_listing)
         ["/r"; "--json"] =
      FromScan (LogScanning "/r") ::
      map FromScan body ++ [FromPrint (JsonDocument r)] /\
    (existsb (has_key "verbose") ["/r"; "--json"] = false -> body = []) /\
    snd (scan tag_digest (main_options ["/r"; "--json"]) "/r" sample_listing [])
      = Normal r.
Proof.
  refine (main_json_is_not_alone tag_digest plain_bytes (fun d => d)
            (fun _ => sample_listing) ["/r"; "--json"] "/r" _ _).
  - reflexivity.
  - reflexivity.
Defined.

Lemma hasValidExtension_ignores_case_witness :
  hasValidExtension (scan_options no_options) "b.PNG" =
  hasValidExtension (scan_options no_options) "B.png".
Proof.
  refine (proj1 (hasValidExtension_ignores_case (scan_options no_options)
                   "b.PNG" "B.png" _ _ _)).
  - reflexivity.
  - reflexivity.
  - reflexivity.
Defined.

Lemma stat_failure_hides_the_rest_witness :
  scanDirectory tag_digest (new_AssetAudit no_options []) "/r" None
    (stat_listing [File "b.png" (Some 120) (Some bytes_A)]) =
  scanDirectory tag_digest (new_AssetAudit no_options []) "/r" None
    (stat_listing []).
Proof.
  refine (stat_failure_hides_the_rest tag_digest
            (new_AssetAudit no_options []) "/r" None "gone.png" None
            [File "a.png" (Some 120) (Some bytes_A)]
            [File "b.png" (Some 120) (Some bytes_A)] _ _).
  - reflexivity.
  - reflexivity.
Defined.

Lemma report_ignores_verbose_and_json_witness :
  sample_report = verbose_report /\
  filesByHash (fst sample_scan) = filesByHash (fst verbose_scan).
Proof.
  refine (report_ignores_verbose_and_json tag_digest no_options
            verbose_options "/r" sample_listing [] [] (fst sample_scan)
            sample_report (fst verbose_scan) verbose_report _ _ _ _ _).
  - reflexivity.
  - reflexivity.
  - reflexivity.
  - evaluated.
  - evaluated.
Defined.

Lemma analyze_again_doubles_witness :
  totalFilesScanned (stats second_report) =
  2 * totalFilesScanned (stats sample_report).
Proof.
  refine (proj1 (analyze_again_doubles tag_digest no_options "/r"
                   sample_listing [] (fst sample_scan) sample_report
                   (fst second_analyze) second_report _ _)).
  - evaluated.
  - evaluated.
Defined.

Lemma larger_minSize_filters_buckets_witness :
  totalFilesScanned (stats larger_report) =
  totalFilesScanned (stats sample_report).
Proof.
  refine (proj1 (larger_minSize_filters_buckets tag_digest no_options
                   larger_options "/r" sample_listing [] []
                   (fst sample_scan) sample_report
                   (fst larger_scan) larger_report _ _ _ _ _)).
  - vm_compute. discriminate.
  - reflexivity.
  - reflexivity.
  - evaluated.
  - evaluated.
Defined.

Lemma record_extension_is_allowed_witness :
  In (groupExtension first_group) (extensions (scan_options no_options)).
Proof.
  refine (proj2 (record_extension_is_allowed tag_digest no_options "/r"
                   sample_listing [] (fst sample_scan) sample_report _ _)
            first_group _).
  - evaluated.
  - reflexivity.
  - vm_compute. tauto.
Defined.

Lemma progress_every_hundred_files_witness :
  exists body,
    console (fst verbose_scan) =
      [] ++ LogScanning "/r" :: body ++
      [LogProcessed (totalFilesProcessed (stats verbose_report))] /\
    Z.of_nat (List.length (filter is_progress_line body)) =
      totalFilesProcessed (stats verbose_report) / 100.
Proof.
  refine (progress_every_hundred_files tag_digest verbose_options "/r"
            sample_listing [] (fst verbose_scan) verbose_report _ _).
  - evaluated.
  - reflexivity.
Defined.

End MoreSamples.
